(** * GPGSM save-file scanner: classifier and directory walk

    A shallow embedding of [scanning.py]: the console classifier
    [detect_console_type], the ignore-list loader [load_ignore_list], the
    directory scanner [scan_directory] and the worker [ScannerThread.run],
    followed by the properties of the specification that concern them.

    Conventions of the embedding.
    - A Python [str] is a [string]; a character stands for a code point
      below 256 (Latin-1), on which [str.lower] and [str.strip] are modelled
      exactly.
    - Paths follow the POSIX flavour of [pathlib] and [os.path].
    - The two JSON documents are typed as their interface describes them:
      [emulator_paths] maps names to strings, the two ignore fields are
      arrays of strings.  A document that cannot be opened, decoded or
      parsed, or whose top level is not an object, makes the [try] block
      of its loader raise, and is one of the unusable states below.
      Module [AnyConfig] models the classifier over every [config.json],
      also one whose [emulator_paths] is outside the interface, and the
      two models are proved to agree on the documents of the interface.
    - An exception that leaves a function is a [Raise] result. *)

From Stdlib Require Import String Ascii List Bool Arith Lia.
From Stdlib Require Import Numbers.DecimalString.
Import ListNotations.
Open Scope string_scope.
Open Scope list_scope.

(** ** Python strings *)

Module PyStr.

(** [str.lower] on one code point below 256: A-Z and the Latin-1 capitals
    (192-222 without the multiplication sign 215) move up by 32. *)
Definition lower_char (c : ascii) : ascii :=
  let n := nat_of_ascii c in
  if (((65 <=? n) && (n <=? 90))
      || ((192 <=? n) && (n <=? 222) && negb (n =? 215)))%nat
  then ascii_of_nat (n + 32)
  else c.

Fixpoint lower (s : string) : string :=
  match s with
  | EmptyString => EmptyString
  | String c s' => String (lower_char c) (lower s')
  end.

(** [s.startswith(k)] *)
Fixpoint startswith (k s : string) : bool :=
  match k, s with
  | EmptyString, _ => true
  | String _ _, EmptyString => false
  | String a k', String b s' => Ascii.eqb a b && startswith k' s'
  end.

(** [s.endswith(c)] for a single character [c] *)
Fixpoint endswith_char (c : ascii) (s : string) : bool :=
  match s with
  | EmptyString => false
  | String a EmptyString => Ascii.eqb a c
  | String _ s' => endswith_char c s'
  end.

(** [k in s]: substring test *)
Fixpoint contains (k s : string) : bool :=
  match s with
  | EmptyString => startswith k EmptyString
  | String _ s' => startswith k s || contains k s'
  end.

(** [s.split(sep)] for a single-character separator *)
Fixpoint split_on (sep : ascii) (s : string) : list string :=
  match s with
  | EmptyString => [EmptyString]
  | String c s' =>
      if Ascii.eqb c sep then EmptyString :: split_on sep s'
      else match split_on sep s' with
           | [] => [String c EmptyString]
           | h :: t => String c h :: t
           end
  end.

(** [x in l] for a list (or set) of strings *)
Definition mem (x : string) (l : list string) : bool :=
  existsb (String.eqb x) l.

(** [str.isspace] below 256 *)
Definition is_space (c : ascii) : bool :=
  let n := nat_of_ascii c in
  (((9 <=? n) && (n <=? 13)) || ((28 <=? n) && (n <=? 32))
   || (n =? 133) || (n =? 160))%nat.

Fixpoint lstrip (s : string) : string :=
  match s with
  | EmptyString => EmptyString
  | String c s' => if is_space c then lstrip s' else s
  end.

Fixpoint rstrip (s : string) : string :=
  match s with
  | EmptyString => EmptyString
  | String c s' =>
      match rstrip s' with
      | EmptyString => if is_space c then EmptyString else String c EmptyString
      | r => String c r
      end
  end.

(** [s.strip()] *)
Definition strip (s : string) : string := rstrip (lstrip s).

(** [s.rfind('.')], [None] standing for -1 *)
Fixpoint rfind_dot (s : string) : option nat :=
  match s with
  | EmptyString => None
  | String c s' =>
      match rfind_dot s' with
      | Some i => Some (S i)
      | None => if Ascii.eqb c "." then Some 0 else None
      end
  end.

(** [a or b] on strings: the empty string is falsy *)
Definition py_or (a b : string) : string :=
  match a with EmptyString => b | _ => a end.

(** [str(n)] for a length *)
Definition str_of_nat (n : nat) : string :=
  NilZero.string_of_uint (Nat.to_uint n).

End PyStr.

(** ** pathlib (PurePosixPath) and os.path.join *)

Module PurePath.
Import PyStr.

(** the root of a parsed path: exactly two leading slashes are kept, any
    other positive number collapses to one *)
Definition anchor (s : string) : string :=
  match s with
  | String "/" (String "/" (String "/" _)) => "/"
  | String "/" (String "/" _) => "//"
  | String "/" _ => "/"
  | _ => ""
  end.

Definition significant (x : string) : bool :=
  negb (String.eqb x "") && negb (String.eqb x ".").

(** the components of a parsed path: empty ones and [.] are dropped *)
Definition parts (s : string) : list string :=
  filter significant (split_on "/" s).

(** [str(Path(s))] *)
Definition path_str (s : string) : string :=
  match anchor s ++ String.concat "/" (parts s) with
  | EmptyString => "."
  | r => r
  end.

(** [Path(s).name] *)
Definition name (s : string) : string := last (parts s) "".

Definition has_suffix_at (i : nat) (nm : string) : bool :=
  ((0 <? i) && (i <? String.length nm - 1))%nat.

(** [Path(s).suffix]: the last dot of the name starts the suffix when it
    is neither the first nor the last character of the name *)
Definition suffix (s : string) : string :=
  let nm := name s in
  match rfind_dot nm with
  | Some i => if has_suffix_at i nm
              then substring i (String.length nm - i) nm else ""
  | None => ""
  end.

(** [Path(s).stem] *)
Definition stem (s : string) : string :=
  let nm := name s in
  match rfind_dot nm with
  | Some i => if has_suffix_at i nm then substring 0 i nm else nm
  | None => nm
  end.

(** [os.path.join(a, b)] *)
Definition join (a b : string) : string :=
  if startswith "/" b then b
  else if String.eqb a "" || endswith_char "/" a then a ++ b
  else a ++ "/" ++ b.

End PurePath.

(** ** The fragment of [re] that the scanner uses *)

Module Re.

(** one pattern item: a character class, or a lazily starred class *)
Inductive atom : Type :=
| One (p : ascii -> bool)
| LazyStar (p : ascii -> bool).

(** length of the match of the pattern at the start of the text, found
    by backtracking: a lazy star first tries to stop *)
Fixpoint match_len (pat : list atom) : string -> option nat :=
  match pat with
  | [] => fun _ => Some 0
  | One p :: rest =>
      fun s =>
        match s with
        | String c s' => if p c then option_map S (match_len rest s') else None
        | EmptyString => None
        end
  | LazyStar p :: rest =>
      fix lazy (s : string) : option nat :=
        match match_len rest s with
        | Some n => Some n
        | None =>
            match s with
            | String c s' => if p c then option_map S (lazy s') else None
            | EmptyString => None
            end
        end
  end.

(** [re.sub(pat, repl, s)], scanning from the left; [skip] counts the
    characters of the current match that are still to be passed over *)
Fixpoint sub_from (pat : list atom) (repl : string) (skip : nat) (s : string)
  : string :=
  match s with
  | EmptyString =>
      match skip, match_len pat EmptyString with
      | O, Some _ => repl
      | _, _ => EmptyString
      end
  | String c s' =>
      match skip with
      | S k => sub_from pat repl k s'
      | O =>
          match match_len pat s with
          | Some (S k) => repl ++ sub_from pat repl k s'
          | Some O => repl ++ String c (sub_from pat repl 0 s')
          | None => String c (sub_from pat repl 0 s')
          end
      end
  end.

Definition sub (pat : list atom) (repl s : string) : string :=
  sub_from pat repl 0 s.

Definition is_open (c : ascii) : bool := Ascii.eqb c "[" || Ascii.eqb c "(".
Definition is_close (c : ascii) : bool := Ascii.eqb c "]" || Ascii.eqb c ")".
Definition is_newline (c : ascii) : bool := Ascii.eqb c "010".
Definition is_sep (c : ascii) : bool :=
  Ascii.eqb c "." || Ascii.eqb c "_" || Ascii.eqb c "-".

(** [[\[(].*?[\])]]: the dot matches anything but a line feed *)
Definition bracketed : list atom :=
  [One is_open; LazyStar (fun c => negb (is_newline c)); One is_close].

(** [[._-]] *)
Definition separator : list atom := [One is_sep].

End Re.

(** ** Results and exceptions *)

Inductive exn : Type :=
| StopIteration
| OSError (path : string)
| AttributeError.

Inductive result (A : Type) : Type :=
| Ok (value : A)
| Raise (e : exn).
Arguments Ok {A} value.
Arguments Raise {A} e.

(** ** The classifier *)

Module Classifier.
Import PyStr.

Definition triple : Type := (string * string * string)%type.

(** a value of [console_patterns]: a triple, or a dictionary from a path
    substring to a triple, in insertion order *)
Inductive console_info : Type :=
| Direct (value : triple)
| ByPath (sub : list (string * triple)).

Definition console_patterns : list (string * console_info) :=
  [ (".sav", ByPath [ ("gb", ("Game Boy", "mGBA/VBA", "Original"));
                      ("gbc", ("GBC", "mGBA/VBA", "Color"));
                      ("gba", ("GBA", "mGBA/VBA", "Advance"));
                      ("nes", ("NES", "FCEUX", "Original"));
                      ("snes", ("SNES", "SNES9x", "Original")) ]);
    (".srm", ByPath [ ("snes", ("SNES", "SNES9x", "Original"));
                      ("gba", ("GBA", "mGBA", "Advance"));
                      ("genesis", ("Sega Genesis", "Fusion", "Original")) ]);
    (".mcr", Direct ("PS1", "ePSXe", "Original"));
    (".mc", Direct ("PS2", "PCSX2", "Original"));
    (".mem", Direct ("N64", "Project64", "Original"));
    (".gci", Direct ("GameCube", "Dolphin", "Original"));
    (".sram", Direct ("SNES", "ZSNES", "Original"));
    (".dsv", Direct ("DS", "DeSmuME", "Original"));
    (".duc", Direct ("DS", "DraStic", "Original"));
    (".nps", Direct ("PSP", "PPSSPP", "Original"));
    (".vms", Direct ("Dreamcast", "NullDC", "Original"));
    (".sav2", Direct ("3DS", "Citra", "Original"));
    (".dat", Direct ("PS3", "RPCS3", "Original"));
    (".bin", Direct ("PS Vita", "Vita3K", "Original"));
    (".nv", Direct ("Switch", "Yuzu", "Original")) ].

(** what reading [config.json] gives, for a document of the interface
    (an [emulator_paths] field, when there is one, maps names to strings):
    the [try] block raises, or the document is an object, with or without
    an [emulator_paths] field.  The documents outside the interface are in
    [AnyConfig.config_json]. *)
Inductive config_file : Type :=
| ConfigUnusable
| ConfigDoc (emulator_paths : option (list (string * string))).

(** the [try]/[except] of lines 73-78 *)
Definition load_emulator_paths (cf : config_file) : list (string * string) :=
  match cf with
  | ConfigUnusable => []
  | ConfigDoc None => []
  | ConfigDoc (Some m) => m
  end.

(** [d.get(k, default)] *)
Fixpoint dict_get (d : list (string * string)) (k default : string) : string :=
  match d with
  | [] => default
  | (k', v) :: d' => if String.eqb k k' then v else dict_get d' k default
  end.

(** [label.split('/')[0]] *)
Definition first_name (label : string) : string :=
  hd "" (split_on "/" label).

(** the loop of lines 86-91 over the items of a sub-dictionary *)
Fixpoint scan_keys (emulator_paths : list (string * string))
         (path_str : string) (items : list (string * triple))
  : option triple :=
  match items with
  | [] => None
  | (key, value) :: rest =>
      if contains key path_str then
        let emulator_name := first_name (snd (fst value)) in
        let emulator_path := dict_get emulator_paths emulator_name "" in
        Some (fst (fst value), py_or emulator_path (snd (fst value)), snd value)
      else scan_keys emulator_paths path_str rest
  end.

(** the loop of lines 81-100 over the items of the table *)
Fixpoint scan_table (emulator_paths : list (string * string))
         (path extension : string) (items : list (string * console_info))
  : result triple :=
  match items with
  | [] => Ok ("PC", "Unknown", "Unknown")
  | (ext, console_info) :: rest =>
      if String.eqb extension ext then
        match console_info with
        | ByPath sub =>
            let path_str := lower (PurePath.path_str path) in
            match scan_keys emulator_paths path_str sub with
            | Some t => Ok t
            | None =>
                match sub with
                | [] => Raise StopIteration
                | (_, first_value) :: _ =>
                    let emulator_name := first_name (snd (fst first_value)) in
                    let emulator_path := dict_get emulator_paths emulator_name "" in
                    Ok (fst (fst first_value),
                        py_or emulator_path (snd (fst first_value)),
                        snd first_value)
                end
            end
        | Direct console_info =>
            let emulator_name := first_name (snd (fst console_info)) in
            let emulator_path := dict_get emulator_paths emulator_name "" in
            Ok (fst (fst console_info),
                py_or emulator_path (snd (fst console_info)),
                snd console_info)
        end
      else scan_table emulator_paths path extension rest
  end.

(** [detect_console_type], over an arbitrary table *)
Definition detect_with (table : list (string * console_info))
           (cf : config_file) (file_path : string) : result triple :=
  let file_path := lower file_path in
  let extension := PurePath.suffix file_path in
  let emulator_paths := load_emulator_paths cf in
  scan_table emulator_paths file_path extension table.

Definition detect_console_type (cf : config_file) (file_path : string)
  : result triple :=
  detect_with console_patterns cf file_path.

End Classifier.

Import PyStr Classifier.

(** ** The classifier over every [config.json] *)

Module AnyConfig.

(** a JSON value found where a path is expected: a string, or a value of
    another type, of which [or] reads the truth value only *)
Inductive path_value : Type :=
| PathText (s : string)
| PathOther (truthy : bool).

(** the object that lines 73-78 bind to [emulator_paths]: a dictionary,
    or a value of another JSON type (null, a boolean, a number, a string,
    an array), which has no [get] *)
Inductive paths_object : Type :=
| PathsDict (d : list (string * path_value))
| PathsOther.

(** what reading [config.json] gives, whatever the document holds: the
    [try] block raises (the file cannot be opened or parsed, or its top
    level is not an object), or the document is an object, without an
    [emulator_paths] field or with one of any type *)
Inductive config_json : Type :=
| JsonUnusable
| JsonObject (emulator_paths : option paths_object).

(** the [try]/[except] of lines 73-78 *)
Definition load_emulator_paths (cj : config_json) : paths_object :=
  match cj with
  | JsonUnusable => PathsDict []
  | JsonObject None => PathsDict []
  | JsonObject (Some o) => o
  end.

Fixpoint dict_get (d : list (string * path_value)) (k : string)
         (default : path_value) : path_value :=
  match d with
  | [] => default
  | (k', v) :: d' => if String.eqb k k' then v else dict_get d' k default
  end.

(** [emulator_paths.get(k, '')]: an object that is not a dictionary has
    no such attribute *)
Definition get (emulator_paths : paths_object) (k : string)
  : result path_value :=
  match emulator_paths with
  | PathsDict d => Ok (dict_get d k (PathText ""))
  | PathsOther => Raise AttributeError
  end.

(** [emulator_path or label] *)
Definition py_or (emulator_path : path_value) (label : string) : path_value :=
  match emulator_path with
  | PathText EmptyString => PathText label
  | PathOther false => PathText label
  | _ => emulator_path
  end.

(** a returned triple; the emulator is whatever [or] has chosen *)
Definition triple : Type := (string * path_value * string)%type.

(** the loop of lines 86-91 *)
Fixpoint scan_keys (emulator_paths : paths_object) (path_str : string)
         (items : list (string * Classifier.triple))
  : option (result triple) :=
  match items with
  | [] => None
  | (key, value) :: rest =>
      if contains key path_str then
        let emulator_name := first_name (snd (fst value)) in
        match get emulator_paths emulator_name with
        | Raise e => Some (Raise e)
        | Ok emulator_path =>
            Some (Ok (fst (fst value),
                      py_or emulator_path (snd (fst value)),
                      snd value))
        end
      else scan_keys emulator_paths path_str rest
  end.

(** the loop of lines 81-100 *)
Fixpoint scan_table (emulator_paths : paths_object)
         (path extension : string) (items : list (string * console_info))
  : result triple :=
  match items with
  | [] => Ok ("PC", PathText "Unknown", "Unknown")
  | (ext, console_info) :: rest =>
      if String.eqb extension ext then
        match console_info with
        | ByPath sub =>
            let path_str := lower (PurePath.path_str path) in
            match scan_keys emulator_paths path_str sub with
            | Some r => r
            | None =>
                match sub with
                | [] => Raise StopIteration
                | (_, first_value) :: _ =>
                    let emulator_name := first_name (snd (fst first_value)) in
                    match get emulator_paths emulator_name with
                    | Raise e => Raise e
                    | Ok emulator_path =>
                        Ok (fst (fst first_value),
                            py_or emulator_path (snd (fst first_value)),
                            snd first_value)
                    end
                end
            end
        | Direct console_info =>
            let emulator_name := first_name (snd (fst console_info)) in
            match get emulator_paths emulator_name with
            | Raise e => Raise e
            | Ok emulator_path =>
                Ok (fst (fst console_info),
                    py_or emulator_path (snd (fst console_info)),
                    snd console_info)
            end
        end
      else scan_table emulator_paths path extension rest
  end.

(** [detect_console_type], for any state of [config.json] *)
Definition detect_console_type (cj : config_json) (file_path : string)
  : result triple :=
  let file_path := lower file_path in
  let extension := PurePath.suffix file_path in
  let emulator_paths := load_emulator_paths cj in
  scan_table emulator_paths file_path extension console_patterns.

(** a document of the interface among all documents *)
Definition of_config_file (cf : config_file) : config_json :=
  match cf with
  | ConfigUnusable => JsonUnusable
  | ConfigDoc None => JsonObject None
  | ConfigDoc (Some m) =>
      JsonObject (Some (PathsDict (map (fun kv => (fst kv, PathText (snd kv))) m)))
  end.

Definition of_result (r : result Classifier.triple) : result triple :=
  match r with
  | Ok t => Ok (fst (fst t), PathText (snd (fst t)), snd t)
  | Raise e => Raise e
  end.

(** what each [return] statement gives for a table triple *)
Definition answer (emulator_paths : paths_object) (value : Classifier.triple)
  : result triple :=
  match get emulator_paths (first_name (snd (fst value))) with
  | Raise e => Raise e
  | Ok emulator_path =>
      Ok (fst (fst value), py_or emulator_path (snd (fst value)), snd value)
  end.

End AnyConfig.

(** ** The directory scanner *)

Module Scanner.

(** the six fields of a record, in the order of the source *)
Record save_info : Type := mk_save_info {
  console_type : string;
  game_name : string;
  save_path : string;
  date_modified : string;
  emulator : string;
  hardware_type : string
}.

(** what reading [ignore.json] gives: the file does not exist; opening or
    decoding it raises; [json.loads] raises on the text without its
    comment lines, or the document is not an object; or the document is an
    object, each field present or not *)
Inductive ignore_file : Type :=
| IgnoreAbsent
| IgnoreUnreadable
| IgnoreInvalid
| IgnoreDoc (ignore_directories ignore_files : option (list string)).

(** [d.get(k, [])] on an optional field *)
Definition field_or_empty (f : option (list string)) : list string :=
  match f with Some l => l | None => [] end.

Definition load_ignore_list (f : ignore_file) : list string * list string :=
  match f with
  | IgnoreDoc dirs files => (field_or_empty dirs, field_or_empty files)
  | IgnoreAbsent | IgnoreUnreadable | IgnoreInvalid => ([], [])
  end.

(** A directory tree as the walk observes it.
    - [File name mtime]: an entry that is not a directory; [mtime] is the
      modification time as [strftime('%Y-%m-%d %H:%M:%S')] renders it, or
      [None] when [os.path.getmtime] raises (the file was removed after it
      was listed, a dangling link, ...).
    - [Dir name entries]: a directory and its listing, in [scandir] order.
    - [Unlistable name]: an entry reported as a directory that the walk
      gets nothing from: [scandir] fails on it (permission denied, removed)
      or it is a link, which the walk does not follow.  As the root of a
      scan it stands for a path on which [scandir] fails: a path that does
      not exist, or a directory that may not be read.
    A tree describes what one scan, started at its root, observes.  A root
    that is a link to a directory is described by the directory it points
    to, a [Dir] node: [scandir] follows the link.  Of the nodes below the
    root only a [Dir] describes that entry as the root of a scan of its
    own. *)
#[local] Unset Elimination Schemes.
Inductive node : Type :=
| File (name : string) (mtime : option string)
| Dir (name : string) (entries : list node)
| Unlistable (name : string).
#[local] Set Elimination Schemes.

Definition node_name (n : node) : string :=
  match n with
  | File nm _ => nm
  | Dir nm _ => nm
  | Unlistable nm => nm
  end.

Definition is_dir (n : node) : bool :=
  match n with File _ _ => false | _ => true end.

(** the [dirs] and [files] lists of one step of the walk; a file name
    comes with what [getmtime] will answer for it *)
Definition dir_names (es : list node) : list string :=
  map node_name (filter is_dir es).

Fixpoint file_entries (es : list node) : list (string * option string) :=
  match es with
  | [] => []
  | File nm mt :: es' => (nm, mt) :: file_entries es'
  | _ :: es' => file_entries es'
  end.

Definition walk_item : Type :=
  (string * list string * list (string * option string))%type.

(** [os.walk(top)], top-down, errors ignored, for a caller that prunes
    [dirs] in place to the names satisfying [keep] before the walk goes on.
    An error of [scandir] on [top] ends that branch without a triple. *)
Fixpoint os_walk (keep : string -> bool) (top : string) (n : node)
  : list walk_item :=
  match n with
  | Dir _ es =>
      (top, dir_names es, file_entries es)
        :: flat_map (fun c =>
                       if is_dir c && keep (node_name c)
                       then os_walk keep (PurePath.join top (node_name c)) c
                       else []) es
  | File _ _ => []
  | Unlistable _ => []
  end.

Definition save_extensions : list string :=
  [".sav"; ".srm"; ".mcr"; ".mc"; ".mem"; ".gci"; ".sram"; ".dsv"; ".duc";
   ".nps"; ".vms"; ".sav2"; ".dat"; ".bin"; ".nv"].

(** lines 134-137: the game name of a file name *)
Definition clean_game_name (file : string) : string :=
  let game_name := PurePath.stem file in
  let game_name := Re.sub Re.bracketed "" game_name in
  strip (Re.sub Re.separator " " game_name).

(** the loop over [files] (lines 122-151); [save_files] is the list that
    the source appends to *)
Fixpoint scan_files (ignore_files : list string) (cf : config_file)
         (root : string) (files : list (string * option string))
         (save_files : list save_info) : result (list save_info) :=
  match files with
  | [] => Ok save_files
  | (file, mtime) :: rest =>
      if mem file ignore_files then
        scan_files ignore_files cf root rest save_files
      else if mem (lower (PurePath.suffix file)) save_extensions then
        let file_path := PurePath.join root file in
        match mtime with
        | None => Raise (OSError file_path)
        | Some mod_time =>
            let game_name := clean_game_name file in
            match detect_console_type cf file_path with
            | Raise e => Raise e
            | Ok (console_type, emulator, hardware_type) =>
                scan_files ignore_files cf root rest
                  (save_files ++
                     [ {| console_type := console_type;
                          game_name := game_name;
                          save_path := file_path;
                          date_modified := mod_time;
                          emulator := emulator;
                          hardware_type := hardware_type |} ])
            end
        end
      else scan_files ignore_files cf root rest save_files
  end.

(** the loop over the triples of the walk (line 118) *)
Fixpoint scan_walk (ignore_files : list string) (cf : config_file)
         (items : list walk_item) (save_files : list save_info)
  : result (list save_info) :=
  match items with
  | [] => Ok save_files
  | (root, _, files) :: rest =>
      match scan_files ignore_files cf root files save_files with
      | Raise e => Raise e
      | Ok save_files' => scan_walk ignore_files cf rest save_files'
      end
  end.

(** [scan_directory(directory)], given the two configuration files and
    what [directory] is on disk; [config.json], which the classifier reads
    at each call, stays the same during a scan *)
Definition scan_directory (ign : ignore_file) (cf : config_file)
           (directory : string) (fs : node) : result (list save_info) :=
  let '(ignore_dirs, ignore_files) := load_ignore_list ign in
  scan_walk ignore_files cf
    (os_walk (fun d => negb (mem d ignore_dirs)) directory fs) [].

(** the three signals of [ScannerThread]; [error_signal] carries the text
    of the exception, for which the exception itself stands *)
Inductive signal : Type :=
| progress_signal (msg : string)
| finished_signal (results : list save_info)
| error_signal (e : exn).

(** [ScannerThread.run]: the signals it emits, in order *)
Definition run (ign : ignore_file) (cf : config_file) (directory : string)
           (fs : node) : list signal :=
  progress_signal "Starting scan..." ::
  match scan_directory ign cf directory fs with
  | Ok results =>
      [ progress_signal
          ("Found " ++ str_of_nat (List.length results) ++ " save files");
        finished_signal results ]
  | Raise e => [ error_signal e ]
  end.

End Scanner.


(** ** The specification's descriptions, for comparison with the code *)

Import Scanner.

Module Described.

(** a closing bracket is reached before the line ends *)
Fixpoint has_closer (s : string) : bool :=
  match s with
  | EmptyString => false
  | String c s' =>
      if Re.is_close c then true
      else if Re.is_newline c then false
      else has_closer s'
  end.

(** the position of the first closing bracket, when one is reached before
    the line ends *)
Fixpoint closer_at (s : string) : option nat :=
  match s with
  | EmptyString => None
  | String c s' =>
      if Re.is_close c then Some 0
      else if Re.is_newline c then None
      else option_map S (closer_at s')
  end.

(** the removal that the code performs, in words: outside a run, a [[] or
    a [(] starts a run when a []] or a [)] follows before any line feed;
    the run ends with the first []] or [)], of either kind; an opening
    bracket that starts no run stays *)
Fixpoint drop_runs (inside : bool) (s : string) : string :=
  match s with
  | EmptyString => EmptyString
  | String c s' =>
      if inside then
        (if Re.is_close c then drop_runs false s' else drop_runs true s')
      else if Re.is_open c && has_closer s' then drop_runs true s'
      else String c (drop_runs false s')
  end.

(** the closing bracket that belongs to an opening one *)
Definition closer_of (c : ascii) : option ascii :=
  if Ascii.eqb c "[" then Some "]"%char
  else if Ascii.eqb c "(" then Some ")"%char
  else None.

(** the position of the first [c] in a string *)
Fixpoint position (c : ascii) (s : string) : option nat :=
  match s with
  | EmptyString => None
  | String a s' =>
      if Ascii.eqb a c then Some 0 else option_map S (position c s')
  end.

(** "removing every bracketed or parenthesized run ([[...]] or [(...)],
    non-greedy)": a run goes from an opening bracket to the first closing
    bracket of its kind; [skip] counts the characters of the current run
    that are still to be dropped *)
Fixpoint remove_runs (skip : nat) (s : string) : string :=
  match s with
  | EmptyString => EmptyString
  | String c s' =>
      match skip with
      | S k => remove_runs k s'
      | O =>
          match closer_of c with
          | Some closer =>
              match position closer s' with
              | Some k => remove_runs (S k) s'
              | None => String c (remove_runs 0 s')
              end
          | None => String c (remove_runs 0 s')
          end
      end
  end.

(** "replacing every run of [.], [_], [-] with a single space" *)
Fixpoint collapse_runs (after_sep : bool) (s : string) : string :=
  match s with
  | EmptyString => EmptyString
  | String c s' =>
      if Re.is_sep c then
        (if after_sep then collapse_runs true s'
         else String " " (collapse_runs true s'))
      else String c (collapse_runs false s')
  end.

(** the game name as the specification words it *)
Definition game_name_of (file : string) : string :=
  strip (collapse_runs false (remove_runs 0 (PurePath.stem file))).

(** every separator character becomes one space *)
Fixpoint space_each (s : string) : string :=
  match s with
  | EmptyString => EmptyString
  | String c s' => String (if Re.is_sep c then " "%char else c) (space_each s')
  end.

(** "the first /-separated candidate name" of a label *)
Fixpoint first_candidate (label : string) : string :=
  match label with
  | EmptyString => EmptyString
  | String c rest =>
      if Ascii.eqb c "/" then EmptyString else String c (first_candidate rest)
  end.

(** the path configured for a name, when there is one and it is not empty *)
Fixpoint configured_path (emulator_paths : list (string * string))
         (name : string) : option string :=
  match emulator_paths with
  | [] => None
  | (k, v) :: rest =>
      if String.eqb name k
      then (if String.eqb v "" then None else Some v)
      else configured_path rest name
  end.

(** "if a non-empty path is configured return that path, otherwise the
    original full label text" *)
Definition resolve_emulator (emulator_paths : list (string * string))
           (label : string) : string :=
  match configured_path emulator_paths (first_candidate label) with
  | Some path => path
  | None => label
  end.

(** the table entry of an extension *)
Definition table_entry (ext : string) : option console_info :=
  option_map snd
    (find (fun kv => String.eqb ext (fst kv)) console_patterns).

(** a triple that the table holds for an extension *)
Definition table_triple (ext : string) (t : triple) : Prop :=
  match table_entry ext with
  | Some (Direct v) => t = v
  | Some (ByPath sub) => In t (map snd sub)
  | None => False
  end.

(** a key that the path normalisation cannot create or destroy: not
    empty, not [.], without a slash *)
Fixpoint no_slash (s : string) : bool :=
  match s with
  | EmptyString => true
  | String c s' => negb (Ascii.eqb c "/") && no_slash s'
  end.

Definition plain_key (k : string) : bool :=
  no_slash k && negb (String.eqb k "") && negb (String.eqb k ".").

(** the triple that each of the three [return] statements of the
    classifier builds from a table triple *)
Definition resolved (emulator_paths : list (string * string)) (value : triple)
  : triple :=
  (fst (fst value),
   py_or (dict_get emulator_paths (first_name (snd (fst value))) "")
         (snd (fst value)),
   snd value).

(** a table entry from which the classifier always gets a triple with a
    console name: a sub-dictionary has a first entry, and its keys are
    plain *)
Definition entry_ok (kv : string * console_info) : Prop :=
  match snd kv with
  | Direct v => fst (fst v) <> ""
  | ByPath sub =>
      sub <> []
      /\ Forall (fun e => plain_key (fst e) = true
                          /\ fst (fst (snd e)) <> "") sub
  end.

(** a file that the loop over [files] keeps: its name is not ignored and
    its lower-cased extension is a save extension *)
Definition matched (ignore_files : list string) (file : string) : bool :=
  negb (mem file ignore_files)
  && mem (lower (PurePath.suffix file)) save_extensions.

Definition triple_of (cf : config_file) (path : string) : triple :=
  match detect_console_type cf path with
  | Ok t => t
  | Raise _ => ("PC", "Unknown", "Unknown")
  end.

(** the record of a matched file [file] of directory [root] *)
Definition record_of (cf : config_file) (root file mod_time : string)
  : save_info :=
  let t := triple_of cf (PurePath.join root file) in
  {| console_type := fst (fst t);
     game_name := clean_game_name file;
     save_path := PurePath.join root file;
     date_modified := mod_time;
     emulator := snd (fst t);
     hardware_type := snd t |}.

(** the records of the matched files of one directory, in order *)
Definition records_of (ignore_files : list string) (cf : config_file)
           (root : string) (files : list (string * option string))
  : list save_info :=
  flat_map (fun e =>
              if matched ignore_files (fst e) then
                match snd e with
                | Some t => [record_of cf root (fst e) t]
                | None => []
                end
              else []) files.

(** some matched file of the directory cannot be stat'ed *)
Definition stat_fails (ignore_files : list string)
           (files : list (string * option string)) : bool :=
  existsb (fun e => matched ignore_files (fst e)
                    && match snd e with None => true | Some _ => false end)
          files.

Definition all_records (ignore_files : list string) (cf : config_file)
           (items : list walk_item) : list save_info :=
  flat_map (fun it => records_of ignore_files cf (fst (fst it)) (snd it)) items.

Definition walk_fails (ignore_files : list string) (items : list walk_item)
  : bool :=
  existsb (fun it => stat_fails ignore_files (snd it)) items.

(** the directories that a scan visits, and whether it meets a matched
    file that cannot be stat'ed *)
Definition visited (ign : ignore_file) (directory : string) (fs : node)
  : list walk_item :=
  os_walk (fun d => negb (mem d (fst (load_ignore_list ign)))) directory fs.

Definition stat_failure (ign : ignore_file) (directory : string) (fs : node)
  : bool :=
  walk_fails (snd (load_ignore_list ign)) (visited ign directory fs).

(** the tree without the subdirectories that cannot be listed *)
Fixpoint without_unlistable (n : node) : node :=
  match n with
  | Dir nm es =>
      Dir nm (flat_map (fun c => match c with
                                 | Unlistable _ => []
                                 | _ => [without_unlistable c]
                                 end) es)
  | _ => n
  end.

(** what the loops of the scanner read of a step of the walk *)
Definition step_view (it : walk_item) : string * list (string * option string) :=
  (fst (fst it), snd it).

(** a name that a directory entry can have *)
Definition valid_name (s : string) : bool :=
  no_slash s && negb (String.eqb s "").

(** every entry below the root has such a name *)
Fixpoint names_ok (n : node) : bool :=
  match n with
  | Dir _ es => forallb (fun c => valid_name (node_name c) && names_ok c) es
  | _ => true
  end.

(** [visits keep n ds es]: going down from [n] through the subdirectories
    named [ds], all of them kept, the walk lists the entries [es] *)
Inductive visits (keep : string -> bool) : node -> list string -> list node -> Prop :=
| visits_here : forall nm es, visits keep (Dir nm es) [] es
| visits_below : forall nm es c ds es',
    In c es -> keep (node_name c) = true -> visits keep c ds es' ->
    visits keep (Dir nm es) (node_name c :: ds) es'.

(** what [os.path.join] puts between [a] and a relative name *)
Definition separator_after (a : string) : string :=
  if String.eqb a "" || endswith_char "/" a then "" else "/".

(** the path of the directory reached from [top] through [ds] *)
Definition path_below (top : string) (ds : list string) : string :=
  fold_left PurePath.join ds top.

End Described.

(** ** The configuration that [main.py] creates *)

Module Manager.

Record backup_settings : Type := mk_backup_settings {
  enabled : bool;
  backup_directory : string;
  backup_frequency_days : nat;
  keep_backups : nat
}.

(** the document of [config.json], with the five fields that
    [load_config] writes *)
Record app_config : Type := mk_app_config {
  emulator_paths : list (string * string);
  active_systems : list (string * bool);
  default_catalog : string;
  auto_scan_directories : list string;
  backup : backup_settings
}.

(** [default_config] of [load_config] (lines 87-112) *)
Definition default_config : app_config :=
  {| emulator_paths :=
       [ ("mGBA", ""); ("VBA", ""); ("FCEUX", ""); ("SNES9x", "");
         ("Fusion", ""); ("ePSXe", ""); ("PCSX2", ""); ("Project64", "");
         ("Dolphin", ""); ("ZSNES", ""); ("DeSmuME", ""); ("DraStic", "");
         ("PPSSPP", ""); ("NullDC", ""); ("Citra", ""); ("RPCS3", "");
         ("Vita3K", ""); ("Yuzu", "") ];
     active_systems :=
       map (fun system => (system, true))
         [ "NES"; "SNES"; "N64"; "GameCube"; "Wii"; "Switch";
           "PS1"; "PS2"; "PS3"; "PSP"; "PS Vita";
           "Game Boy"; "GBC"; "GBA"; "DS"; "3DS";
           "Sega Genesis"; "Dreamcast"; "Saturn";
           "PC"; "Arcade" ];
     default_catalog := "All";
     auto_scan_directories := [];
     backup := {| enabled := false;
                  backup_directory := "";
                  backup_frequency_days := 7;
                  keep_backups := 3 |} |}.

(** [config.json] on disk: missing; there but opening or parsing it
    raises; or a document *)
Inductive config_disk : Type :=
| DiskAbsent
| DiskUnusable
| DiskDoc (c : app_config).

(** what [load_config] returns: a document, or the empty dictionary of its
    [except] branch *)
Inductive loaded_config : Type :=
| EmptyDict
| Loaded (c : app_config).

(** [SaveFileManager.load_config]: the value returned and the file left on
    disk; [writable] tells whether [config.json] can be created *)
Definition load_config (disk : config_disk) (writable : bool)
  : loaded_config * config_disk :=
  match disk with
  | DiskDoc c => (Loaded c, disk)
  | DiskUnusable => (EmptyDict, disk)
  | DiskAbsent =>
      if writable then (Loaded default_config, DiskDoc default_config)
      else (EmptyDict, DiskAbsent)
  end.

(** [self.console_types] (lines 35-37): the systems switched on, in the
    order of the document *)
Definition console_types (c : app_config) : list string :=
  map fst (filter (fun kv => snd kv) (active_systems c)).

(** the same file as [detect_console_type] reads it *)
Definition as_config_file (disk : config_disk) : config_file :=
  match disk with
  | DiskAbsent => ConfigUnusable
  | DiskUnusable => ConfigUnusable
  | DiskDoc c => ConfigDoc (Some (emulator_paths c))
  end.

End Manager.

(** ** What the code is observed to do *)

Import Described.

Module Observed.

(** the triple chosen for a [.sav] path: only "gb" and "nes" decide *)
Definition sav_choice (path : string) : triple :=
  if contains "gb" path then ("Game Boy", "mGBA/VBA", "Original")
  else if contains "nes" path then ("NES", "FCEUX", "Original")
  else ("Game Boy", "mGBA/VBA", "Original").

(** the triple chosen for a [.srm] path *)
Definition srm_choice (path : string) : triple :=
  if contains "snes" path then ("SNES", "SNES9x", "Original")
  else if contains "gba" path then ("GBA", "mGBA", "Advance")
  else if contains "genesis" path then ("Sega Genesis", "Fusion", "Original")
  else ("SNES", "SNES9x", "Original").

(** the triples of the table, those of the sub-dictionaries included *)
Definition table_triples : list triple :=
  flat_map (fun kv => match snd kv with
                      | Direct v => [v]
                      | ByPath sub => map snd sub
                      end) console_patterns.

(** the characters of a string *)
Definition chars (s : string) : list ascii := list_ascii_of_string s.

(** the entries of every directory of the tree have distinct names *)
Fixpoint unique_names (n : node) : Prop :=
  match n with
  | Dir _ es =>
      NoDup (map node_name es)
      /\ (fix all (l : list node) : Prop :=
            match l with
            | [] => True
            | c :: l' => unique_names c /\ all l'
            end) es
  | _ => True
  end.

(** the records that a scan returns, none when it raises *)
Definition records (r : result (list save_info)) : list save_info :=
  match r with Ok l => l | Raise _ => [] end.

(** the names of the matched files of a listing that can be stat'ed *)
Definition kept_files (ignore_files : list string)
           (files : list (string * option string)) : list string :=
  flat_map (fun e =>
              if matched ignore_files (fst e) then
                match snd e with Some _ => [fst e] | None => [] end
              else []) files.

(** the matched files below a node that a walk reaches, each as the list
    of names that leads to it from the node *)
Fixpoint addresses (ignore_files : list string) (keep : string -> bool)
         (n : node) : list (list string) :=
  match n with
  | Dir _ es =>
      map (fun f => [f]) (kept_files ignore_files (file_entries es))
      ++ flat_map (fun c =>
                     if is_dir c && keep (node_name c)
                     then map (cons (node_name c))
                              (addresses ignore_files keep c)
                     else []) es
  | _ => []
  end.

End Observed.

Import Observed.
Open Scope string_scope.

(** * Properties *)

(** ** Strings *)

Lemma lower_char_idem (c : ascii) : lower_char (lower_char c) = lower_char c.
Proof.
  destruct c as [[|] [|] [|] [|] [|] [|] [|] [|]]; vm_compute; reflexivity.
Qed.

Lemma lower_idem (s : string) : lower (lower s) = lower s.
Proof.
  induction s as [|c s IH]; simpl; [reflexivity|].
  now rewrite lower_char_idem, IH.
Qed.

Lemma lower_app (a b : string) : lower (a ++ b) = lower a ++ lower b.
Proof.
  induction a as [|c a IH]; simpl; [reflexivity | now rewrite IH].
Qed.

Lemma startswith_nil (k : string) : k <> "" -> startswith k "" = false.
Proof. destruct k; [congruence | reflexivity]. Qed.

Lemma contains_nil (k : string) : k <> "" -> contains k "" = false.
Proof. apply startswith_nil. Qed.

Lemma startswith_before_slash (k a b : string) :
  no_slash k = true ->
  startswith k (a ++ String "/" b) = startswith k a.
Proof.
  revert a; induction k as [|x k IH]; intros a Hk; [now destruct a|].
  simpl in Hk. apply andb_true_iff in Hk as [Hx Hk].
  destruct a as [|y a]; simpl.
  - apply negb_true_iff in Hx. now rewrite Hx.
  - now rewrite IH.
Qed.

Lemma contains_cons (k : string) (c : ascii) (s : string) :
  contains k (String c s) = startswith k (String c s) || contains k s.
Proof. reflexivity. Qed.

Lemma contains_across_slash (k a b : string) :
  no_slash k = true -> k <> "" ->
  contains k (a ++ String "/" b) = contains k a || contains k b.
Proof.
  intros Hk Hne; induction a as [|y a IH].
  - change ("" ++ String "/" b) with (String "/" b).
    rewrite contains_cons, (contains_nil k Hne).
    change (String "/" b) with ("" ++ String "/" b).
    rewrite (startswith_before_slash k "" b Hk), (startswith_nil k Hne).
    reflexivity.
  - change (String y a ++ String "/" b) with (String y (a ++ String "/" b)).
    rewrite !contains_cons, IH.
    change (String y (a ++ String "/" b)) with (String y a ++ String "/" b).
    rewrite (startswith_before_slash k (String y a) b Hk).
    now rewrite orb_assoc.
Qed.

Lemma contains_concat (k : string) (cs : list string) :
  no_slash k = true -> k <> "" ->
  contains k (String.concat "/" cs) = existsb (contains k) cs.
Proof.
  intros Hk Hne; induction cs as [|c cs IH].
  - apply contains_nil, Hne.
  - destruct cs as [|c' cs].
    + simpl. now rewrite orb_false_r.
    + change (String.concat "/" (c :: c' :: cs))
        with (c ++ String "/" (String.concat "/" (c' :: cs))).
      rewrite contains_across_slash by assumption.
      now rewrite IH.
Qed.

Lemma split_on_not_nil (sep : ascii) (s : string) : split_on sep s <> [].
Proof.
  destruct s as [|c s]; simpl; [discriminate|].
  destruct (Ascii.eqb c sep); [discriminate|].
  destruct (split_on sep s); discriminate.
Qed.

Lemma concat_split (s : string) : String.concat "/" (split_on "/" s) = s.
Proof.
  induction s as [|c s IH]; [reflexivity|].
  cbn [split_on].
  destruct (Ascii.eqb_spec c "/") as [->|Hc].
  - pose proof (split_on_not_nil "/" s) as Hn.
    destruct (split_on "/" s) as [|h t]; [congruence|].
    change (String.concat "/" ("" :: h :: t))
      with (String "/" (String.concat "/" (h :: t))).
    now rewrite IH.
  - pose proof (split_on_not_nil "/" s) as Hn.
    destruct (split_on "/" s) as [|h t]; [congruence|].
    destruct t as [|h' t].
    + simpl in *. now rewrite IH.
    + change (String.concat "/" (String c h :: h' :: t))
        with (String c (String.concat "/" (h :: h' :: t))).
      now rewrite IH.
Qed.

Lemma lower_concat (cs : list string) :
  lower (String.concat "/" cs) = String.concat "/" (map lower cs).
Proof.
  induction cs as [|c cs IH]; [reflexivity|].
  destruct cs as [|c' cs]; [reflexivity|].
  change (String.concat "/" (c :: c' :: cs))
    with (c ++ String "/" (String.concat "/" (c' :: cs))).
  rewrite lower_app. cbn [lower]. rewrite IH. reflexivity.
Qed.

Lemma plain_key_inv (k : string) :
  plain_key k = true -> no_slash k = true /\ k <> "" /\ k <> ".".
Proof.
  unfold plain_key; intros H.
  apply andb_true_iff in H as [H H3]. apply andb_true_iff in H as [H1 H2].
  apply negb_true_iff in H2, H3.
  apply String.eqb_neq in H2, H3. auto.
Qed.

Lemma contains_dot (k : string) : plain_key k = true -> contains k "." = false.
Proof.
  intros H; apply plain_key_inv in H as (Hs & Hne & Hd).
  destruct k as [|x [|y k]]; [congruence| |].
  - simpl. destruct (Ascii.eqb_spec x "."); [subst; congruence | reflexivity].
  - simpl. now rewrite andb_false_r.
Qed.

Lemma existsb_significant (k : string) (cs : list string) :
  plain_key k = true ->
  existsb (contains k) (map lower (filter PurePath.significant cs))
  = existsb (contains k) (map lower cs).
Proof.
  intros Hk; induction cs as [|c cs IH]; [reflexivity|].
  cbn [filter map existsb]. unfold PurePath.significant at 1.
  destruct (String.eqb_spec c "") as [->|H1].
  - simpl. rewrite IH.
    destruct (plain_key_inv k Hk) as (_ & Hne & _).
    now rewrite (startswith_nil k Hne).
  - destruct (String.eqb_spec c ".") as [->|H2].
    + cbn [negb andb]. rewrite IH.
      change (lower ".") with ".". now rewrite (contains_dot k Hk).
    + cbn [negb andb map existsb]. now rewrite IH.
Qed.

Lemma contains_lower_components (k q : string) :
  plain_key k = true ->
  contains k (lower q) = existsb (contains k) (map lower (split_on "/" q)).
Proof.
  intros Hk. destruct (plain_key_inv k Hk) as (Hs & Hne & _).
  rewrite <- (concat_split q) at 1.
  rewrite lower_concat. now apply contains_concat.
Qed.

Lemma contains_after_slash (k t : string) :
  no_slash k = true -> k <> "" ->
  contains k (String "/" t) = contains k t.
Proof.
  intros Hs Hne.
  change (String "/" t) with ("" ++ String "/" t).
  rewrite contains_across_slash by assumption.
  now rewrite (contains_nil k Hne).
Qed.

Lemma anchor_cases (q : string) :
  PurePath.anchor q = "" \/ PurePath.anchor q = "/" \/ PurePath.anchor q = "//".
Proof.
  unfold PurePath.anchor.
  destruct q as [|c q]; [now left|].
  destruct (Ascii.eqb_spec c "/") as [->|Hc].
  - destruct q as [|c2 q]; [right; now left|].
    destruct (Ascii.eqb_spec c2 "/") as [->|Hc2].
    + destruct q as [|c3 q]; [right; now right|].
      destruct (Ascii.eqb_spec c3 "/") as [->|Hc3]; [right; now left|].
      right; right.
      destruct c3 as [[|] [|] [|] [|] [|] [|] [|] [|]]; try reflexivity; congruence.
    + right; left.
      destruct c2 as [[|] [|] [|] [|] [|] [|] [|] [|]]; try reflexivity; congruence.
  - left.
    destruct c as [[|] [|] [|] [|] [|] [|] [|] [|]]; try reflexivity; congruence.
Qed.

(** the substring test of the classifier sees the same keys in the
    normalised path as in the path it was given *)
Lemma contains_path_str (k q : string) :
  plain_key k = true ->
  contains k (lower (PurePath.path_str q)) = contains k (lower q).
Proof.
  intros Hk. destruct (plain_key_inv k Hk) as (Hs & Hne & Hd).
  rewrite (contains_lower_components k q Hk).
  rewrite <- (existsb_significant k _ Hk).
  fold (PurePath.parts q).
  rewrite <- (contains_concat k _ Hs Hne), <- lower_concat.
  unfold PurePath.path_str.
  destruct (anchor_cases q) as [E | [E | E]]; rewrite E.
  - cbn [append].
    destruct (String.concat "/" (PurePath.parts q)) eqn:Ec.
    + change (lower ".") with ".". rewrite (contains_dot k Hk).
      symmetry. apply contains_nil, Hne.
    + reflexivity.
  - cbn [append lower].
    change (lower_char "/") with "/"%char.
    now rewrite contains_after_slash.
  - cbn [append lower].
    change (lower_char "/") with "/"%char.
    now rewrite !contains_after_slash.
Qed.

(** ** The classifier *)

Lemma first_name_candidate (label : string) :
  first_name label = first_candidate label.
Proof.
  unfold first_name.
  induction label as [|c l IH]; [reflexivity|].
  cbn [split_on first_candidate].
  destruct (Ascii.eqb c "/"); [reflexivity|].
  pose proof (split_on_not_nil "/" l) as Hn.
  destruct (split_on "/" l) as [|h t]; [congruence|].
  simpl in *. now rewrite IH.
Qed.

Lemma py_or_dict_get (ep : list (string * string)) (name label : string) :
  py_or (dict_get ep name "") label
  = match configured_path ep name with Some path => path | None => label end.
Proof.
  induction ep as [|[k v] ep IH]; [reflexivity|].
  cbn [dict_get configured_path].
  destruct (String.eqb name k); [|exact IH].
  destruct (String.eqb_spec v "") as [->|Hv]; [reflexivity|].
  destruct v; [congruence | reflexivity].
Qed.

Lemma resolved_described (ep : list (string * string)) (c label h : string) :
  resolved ep (c, label, h) = (c, resolve_emulator ep label, h).
Proof.
  unfold resolved, resolve_emulator; cbn [fst snd].
  now rewrite py_or_dict_get, first_name_candidate.
Qed.

Lemma scan_keys_found ep ps sub t :
  scan_keys ep ps sub = Some t ->
  exists k v, In (k, v) sub /\ contains k ps = true /\ t = resolved ep v.
Proof.
  induction sub as [|[k v] sub IH]; [discriminate|].
  cbn [scan_keys].
  destruct (contains k ps) eqn:E.
  - intros [= <-]. exists k, v. split; [now left | now split].
  - intros H. destruct (IH H) as (k' & v' & Hin & Hc & Ht).
    exists k', v'. split; [now right | now split].
Qed.

Lemma scan_keys_none ep ps sub :
  Forall (fun kv => contains (fst kv) ps = false) sub ->
  scan_keys ep ps sub = None.
Proof.
  induction 1 as [|[k v] sub Hk _ IH]; [reflexivity|].
  cbn [scan_keys]. cbn [fst] in Hk. now rewrite Hk.
Qed.

Lemma scan_keys_first ep ps sub1 k v sub2 :
  Forall (fun kv => contains (fst kv) ps = false) sub1 ->
  contains k ps = true ->
  scan_keys ep ps (sub1 ++ (k, v) :: sub2)%list = Some (resolved ep v).
Proof.
  induction 1 as [|[k' v'] sub1 Hk _ IH]; intros Hc.
  - cbn [app scan_keys]. now rewrite Hc.
  - cbn [app scan_keys]. cbn [fst] in Hk. rewrite Hk. now apply IH.
Qed.

Lemma scan_table_none ep path ext items :
  find (fun kv => String.eqb ext (fst kv)) items = None ->
  scan_table ep path ext items = Ok ("PC", "Unknown", "Unknown").
Proof.
  induction items as [|[x info] items IH]; [reflexivity|].
  cbn [find scan_table fst].
  destruct (String.eqb ext x); [discriminate | exact IH].
Qed.

Lemma scan_table_direct ep path ext items x v :
  find (fun kv => String.eqb ext (fst kv)) items = Some (x, Direct v) ->
  scan_table ep path ext items = Ok (resolved ep v).
Proof.
  induction items as [|[y info] items IH]; [discriminate|].
  cbn [find scan_table fst].
  destruct (String.eqb ext y); [|exact IH].
  intros [= -> ->]. reflexivity.
Qed.

Lemma scan_table_by_path ep path ext items x sub :
  find (fun kv => String.eqb ext (fst kv)) items = Some (x, ByPath sub) ->
  scan_table ep path ext items
  = match scan_keys ep (lower (PurePath.path_str path)) sub with
    | Some t => Ok t
    | None => match sub with
              | [] => Raise StopIteration
              | (_, first_value) :: _ => Ok (resolved ep first_value)
              end
    end.
Proof.
  induction items as [|[y info] items IH]; [discriminate|].
  cbn [find scan_table fst].
  destruct (String.eqb ext y); [|exact IH].
  intros [= -> ->]. destruct sub as [|[k v] sub]; reflexivity.
Qed.

Lemma console_patterns_ok : Forall entry_ok console_patterns.
Proof.
  unfold console_patterns, entry_ok.
  repeat (apply Forall_cons; cbn [snd fst]);
    try apply Forall_nil;
    repeat split; try discriminate;
    repeat (apply Forall_cons; cbn [snd fst]); try apply Forall_nil;
    split; (reflexivity || discriminate).
Qed.

Lemma table_entry_find (ext : string) (info : console_info) :
  table_entry ext = Some info ->
  exists x, find (fun kv => String.eqb ext (fst kv)) console_patterns
            = Some (x, info)
            /\ entry_ok (x, info).
Proof.
  unfold table_entry.
  destruct (find _ console_patterns) as [[x i]|] eqn:E; [|discriminate].
  intros [= <-]. exists x. split; [reflexivity|].
  apply find_some in E as [Hin _].
  exact (proj1 (Forall_forall _ _) console_patterns_ok _ Hin).
Qed.

Lemma detect_unfold (cf : config_file) (p : string) :
  detect_console_type cf p
  = scan_table (load_emulator_paths cf) (lower p)
      (PurePath.suffix (lower p)) console_patterns.
Proof. reflexivity. Qed.

(** what the classifier returns, by the table entry of the extension *)
Lemma detect_by_entry (cf : config_file) (p : string) :
  let ep := load_emulator_paths cf in
  detect_console_type cf p
  = match table_entry (PurePath.suffix (lower p)) with
    | None => Ok ("PC", "Unknown", "Unknown")
    | Some (Direct v) => Ok (resolved ep v)
    | Some (ByPath sub) =>
        match scan_keys ep (lower (PurePath.path_str (lower p))) sub with
        | Some t => Ok t
        | None => match sub with
                  | [] => Raise StopIteration
                  | (_, first_value) :: _ => Ok (resolved ep first_value)
                  end
        end
    end.
Proof.
  intros ep. rewrite detect_unfold. fold ep.
  destruct (table_entry (PurePath.suffix (lower p))) as [info|] eqn:E.
  - destruct (table_entry_find _ _ E) as (x & Hf & _).
    destruct info as [v|sub].
    + now apply scan_table_direct with (x := x).
    + now apply scan_table_by_path with (x := x).
  - apply scan_table_none.
    unfold table_entry in E.
    destruct (find _ console_patterns); [discriminate | reflexivity].
Qed.

(** the keys of a sub-dictionary are tested against the path as given *)
Lemma key_test_on_path (k p : string) :
  plain_key k = true ->
  contains k (lower (PurePath.path_str (lower p))) = contains k (lower p).
Proof.
  intros Hk. now rewrite contains_path_str, lower_idem.
Qed.

Lemma detect_returns (cf : config_file) (p : string) :
  exists t, detect_console_type cf p = Ok t /\ fst (fst t) <> "".
Proof.
  rewrite detect_by_entry. cbv zeta.
  destruct (table_entry (PurePath.suffix (lower p))) as [info|] eqn:E.
  - destruct (table_entry_find _ _ E) as (x & _ & Hok).
    unfold entry_ok in Hok; cbn [snd] in Hok.
    destruct info as [v|sub].
    + exists (resolved (load_emulator_paths cf) v). now split.
    + destruct Hok as [Hne Hall].
      destruct (scan_keys _ _ sub) as [t|] eqn:Ek.
      * exists t. split; [reflexivity|].
        apply scan_keys_found in Ek as (k & v & Hin & _ & ->).
        exact (proj2 (proj1 (Forall_forall _ _) Hall _ Hin)).
      * destruct sub as [|[k v] sub]; [congruence|].
        exists (resolved (load_emulator_paths cf) v). split; [reflexivity|].
        exact (proj2 (Forall_inv Hall)).
  - exists ("PC", "Unknown", "Unknown"). split; [reflexivity | discriminate].
Qed.

(** C6. Whenever the extension has a table entry, the emulator field of
    the returned triple is the resolution of the emulator label of a table
    triple with the same console and hardware: the path configured for the
    first /-separated name of the label when that path exists and is not
    empty, the whole label otherwise.  With "mGBA" mapped to /opt/mgba the
    label "mGBA/VBA" gives /opt/mgba; with "mGBA" unmapped, or mapped to
    the empty string, it stays "mGBA/VBA". *)
Theorem emulator_field_resolved :
  (forall (cf : config_file) (p c e h : string),
      table_entry (PurePath.suffix (lower p)) <> None ->
      detect_console_type cf p = Ok (c, e, h) ->
      exists label,
        table_triple (PurePath.suffix (lower p)) (c, label, h)
        /\ e = resolve_emulator (load_emulator_paths cf) label)
  /\ detect_console_type (ConfigDoc (Some [("mGBA", "/opt/mgba")]))
       "/roms/pokemon.sav" = Ok ("Game Boy", "/opt/mgba", "Original")
  /\ detect_console_type (ConfigDoc (Some [("VBA", "/opt/vba")]))
       "/roms/pokemon.sav" = Ok ("Game Boy", "mGBA/VBA", "Original")
  /\ detect_console_type (ConfigDoc (Some [("mGBA", "")]))
       "/roms/pokemon.sav" = Ok ("Game Boy", "mGBA/VBA", "Original").
Proof.
  split; [|repeat split; reflexivity].
  intros cf p c e h Hentry. rewrite detect_by_entry. cbv zeta.
  unfold table_triple.
  destruct (table_entry (PurePath.suffix (lower p))) as [info|] eqn:E;
    [clear Hentry | congruence].
  destruct info as [[[c0 l0] h0]|sub].
  - rewrite resolved_described. intros [= <- <- <-].
    exists l0. now split.
  - destruct (scan_keys _ _ sub) as [t|] eqn:Ek.
    + apply scan_keys_found in Ek as (k & [[c0 l0] h0] & Hin & _ & ->).
      rewrite resolved_described. intros [= <- <- <-].
      exists l0. split; [|reflexivity].
      apply in_map_iff. now exists (k, (c0, l0, h0)).
    + destruct sub as [|[k [[c0 l0] h0]] sub]; [discriminate|].
      rewrite resolved_described. intros [= <- <- <-].
      exists l0. split; [now left | reflexivity].
Qed.

Lemma emulator_field_resolved_witness :
  exists label,
    table_triple (PurePath.suffix (lower "/roms/GBA/Metroid.SRM"))
      ("GBA", label, "Advance")
    /\ "/opt/mgba" = resolve_emulator
                       (load_emulator_paths
                          (ConfigDoc (Some [("mGBA", "/opt/mgba")]))) label.
Proof.
  apply (proj1 emulator_field_resolved
           (ConfigDoc (Some [("mGBA", "/opt/mgba")]))
           "/roms/GBA/Metroid.SRM" "GBA" "/opt/mgba" "Advance").
  - discriminate.
  - reflexivity.
Defined.

(** C7. When the extension selects a sub-dictionary and the lower-cased
    path contains none of its keys, the result is the first entry of the
    sub-dictionary, with its emulator label resolved; nothing is raised. *)
Theorem sub_mapping_default :
  forall (cf : config_file) (p : string) (sub : list (string * triple)),
    table_entry (PurePath.suffix (lower p)) = Some (ByPath sub) ->
    (forall k v, In (k, v) sub -> contains k (lower p) = false) ->
    exists k c label h rest,
      sub = ((k, (c, label, h)) :: rest)%list
      /\ detect_console_type cf p
         = Ok (c, resolve_emulator (load_emulator_paths cf) label, h).
Proof.
  intros cf p sub E Hnone.
  destruct (table_entry_find _ _ E) as (x & _ & Hok).
  unfold entry_ok in Hok; cbn [snd] in Hok. destruct Hok as [Hne Hall].
  rewrite detect_by_entry, E. cbv zeta.
  rewrite scan_keys_none.
  - destruct sub as [|[k [[c label] h]] rest]; [congruence|].
    exists k, c, label, h, rest. split; [reflexivity|].
    now rewrite resolved_described.
  - apply Forall_forall. intros [k v] Hin. cbn [fst].
    rewrite key_test_on_path.
    + now apply (Hnone k v).
    + exact (proj1 (proj1 (Forall_forall _ _) Hall _ Hin)).
Qed.

Lemma sub_mapping_default_witness :
  exists k c label h rest,
    [ ("snes", ("SNES", "SNES9x", "Original"));
      ("gba", ("GBA", "mGBA", "Advance"));
      ("genesis", ("Sega Genesis", "Fusion", "Original")) ]%list
    = ((k, (c, label, h)) :: rest)%list
    /\ detect_console_type ConfigUnusable "/saves/Sonic.srm"
       = Ok (c, resolve_emulator (load_emulator_paths ConfigUnusable) label, h).
Proof.
  apply (sub_mapping_default ConfigUnusable "/saves/Sonic.srm").
  - reflexivity.
  - intros k v Hin. simpl in Hin.
    destruct Hin as [[= <- <-] | [[= <- <-] | [[= <- <-] | []]]]; reflexivity.
Defined.

Lemma startswith_shorter (k s : string) (c : ascii) :
  startswith (k ++ String c "") s = true -> startswith k s = true.
Proof.
  revert s; induction k as [|x k IH]; intros s; [reflexivity|].
  destruct s as [|y s]; [discriminate|].
  cbn [append startswith]. intros H.
  apply andb_true_iff in H as [H1 H2].
  rewrite H1. now apply IH.
Qed.

Lemma contains_shorter (k s : string) (c : ascii) :
  contains (k ++ String c "") s = true -> contains k s = true.
Proof.
  induction s as [|y s IH].
  - apply startswith_shorter.
  - rewrite !contains_cons. intros H.
    apply orb_true_iff in H as [H | H]; apply orb_true_iff.
    + left. now apply startswith_shorter in H.
    + right. now apply IH.
Qed.

(** the entries of [.sav] under "gbc" and "gba" cannot be reached: a path
    with one of these keys contains "gb", which is tested first *)
Lemma sav_gba_shadowed (cf : config_file) (p : string) :
  PurePath.suffix (lower p) = ".sav" ->
  contains "gba" (lower p) = true \/ contains "gbc" (lower p) = true ->
  detect_console_type cf p
  = Ok ("Game Boy", resolve_emulator (load_emulator_paths cf) "mGBA/VBA",
        "Original").
Proof.
  intros Hext Hk.
  assert (Hgb : contains "gb" (lower p) = true).
  { destruct Hk as [H | H].
    - exact (contains_shorter "gb" _ "a" H).
    - exact (contains_shorter "gb" _ "c" H). }
  rewrite detect_by_entry, Hext. cbv zeta.
  change (table_entry ".sav")
    with (Some (ByPath ([] ++ ("gb", ("Game Boy", "mGBA/VBA", "Original"))
                        :: [ ("gbc", ("GBC", "mGBA/VBA", "Color"));
                             ("gba", ("GBA", "mGBA/VBA", "Advance"));
                             ("nes", ("NES", "FCEUX", "Original"));
                             ("snes", ("SNES", "SNES9x", "Original")) ])%list)).
  cbv iota.
  rewrite scan_keys_first.
  - now rewrite resolved_described.
  - apply Forall_nil.
  - now rewrite key_test_on_path.
Qed.

Lemma sav_gba_shadowed_witness :
  detect_console_type (ConfigDoc None) "/home/me/GBA/Advance Wars.sav"
  = Ok ("Game Boy",
        resolve_emulator (load_emulator_paths (ConfigDoc None)) "mGBA/VBA",
        "Original").
Proof.
  apply sav_gba_shadowed; [reflexivity | left; reflexivity].
Defined.

(** a [.sav] path with "nes" and without "gb" is an NES save; such a path
    contains none of "gbc", "gba" either, and whether it contains "snes"
    does not matter, as "nes" is tested before "snes" *)
Lemma sav_nes (cf : config_file) (p : string) :
  PurePath.suffix (lower p) = ".sav" ->
  contains "nes" (lower p) = true ->
  contains "gb" (lower p) = false ->
  detect_console_type cf p
  = Ok ("NES", resolve_emulator (load_emulator_paths cf) "FCEUX", "Original").
Proof.
  intros Hext Hnes Hgb.
  assert (Hgbc : contains "gbc" (lower p) = false).
  { destruct (contains "gbc" (lower p)) eqn:E; [|reflexivity].
    apply (contains_shorter "gb" _ "c") in E. congruence. }
  assert (Hgba : contains "gba" (lower p) = false).
  { destruct (contains "gba" (lower p)) eqn:E; [|reflexivity].
    apply (contains_shorter "gb" _ "a") in E. congruence. }
  rewrite detect_by_entry, Hext. cbv zeta.
  change (table_entry ".sav")
    with (Some (ByPath ([ ("gb", ("Game Boy", "mGBA/VBA", "Original"));
                          ("gbc", ("GBC", "mGBA/VBA", "Color"));
                          ("gba", ("GBA", "mGBA/VBA", "Advance")) ]
                        ++ ("nes", ("NES", "FCEUX", "Original"))
                        :: [ ("snes", ("SNES", "SNES9x", "Original")) ])%list)).
  cbv iota.
  rewrite scan_keys_first.
  - now rewrite resolved_described.
  - repeat apply Forall_cons; try apply Forall_nil; cbn [fst];
      now rewrite key_test_on_path.
  - now rewrite key_test_on_path.
Qed.

Lemma sav_nes_witness :
  detect_console_type ConfigUnusable "/roms/NES/Metroid.sav"
  = Ok ("NES", resolve_emulator (load_emulator_paths ConfigUnusable) "FCEUX",
        "Original").
Proof.
  apply sav_nes; reflexivity.
Defined.

(** C1. On the path /games/gba/pokemon.sav of the specification the
    classifier does not answer "GBA": the key "gb" comes first in the
    [.sav] sub-dictionary and occurs in the path, so the result is the
    "Game Boy" triple, whatever the emulator configuration. *)
Theorem gba_sav_is_game_boy :
  forall cf : config_file,
    detect_console_type cf "/games/gba/pokemon.sav"
    = Ok ("Game Boy", resolve_emulator (load_emulator_paths cf) "mGBA/VBA",
          "Original")
    /\ detect_console_type cf "/games/gba/pokemon.sav"
       <> Ok ("GBA", resolve_emulator (load_emulator_paths cf) "mGBA/VBA",
              "Advance").
Proof.
  intros cf.
  assert (H : detect_console_type cf "/games/gba/pokemon.sav"
              = Ok ("Game Boy",
                    resolve_emulator (load_emulator_paths cf) "mGBA/VBA",
                    "Original")).
  { apply sav_gba_shadowed; [reflexivity | left; reflexivity]. }
  split; [exact H | rewrite H; discriminate].
Qed.

(** ** The two substitutions of the game name *)

Lemma match_separator (c : ascii) (s : string) :
  Re.match_len Re.separator (String c s)
  = if Re.is_sep c then Some 1 else None.
Proof. cbn. now destruct (Re.is_sep c). Qed.

Lemma sub_separator (s : string) : Re.sub Re.separator " " s = space_each s.
Proof.
  unfold Re.sub. induction s as [|c s IH]; [reflexivity|].
  cbn [Re.sub_from]. rewrite match_separator. cbn [space_each].
  destruct (Re.is_sep c); cbn; now rewrite IH.
Qed.

Lemma match_lazy_closer (s : string) :
  Re.match_len [Re.LazyStar (fun c => negb (Re.is_newline c)); Re.One Re.is_close] s
  = option_map S (closer_at s).
Proof.
  induction s as [|c s IH]; [reflexivity|].
  cbn [closer_at].
  destruct (Re.is_close c) eqn:Ec.
  - cbn. now rewrite Ec.
  - cbn in IH |- *. rewrite Ec.
    destruct (Re.is_newline c); cbn [negb]; [reflexivity|].
    now rewrite IH.
Qed.

Lemma match_bracketed (c : ascii) (s : string) :
  Re.match_len Re.bracketed (String c s)
  = if Re.is_open c then option_map S (option_map S (closer_at s)) else None.
Proof.
  unfold Re.bracketed.
  change (Re.match_len (Re.One Re.is_open :: ?r) (String c s))
    with (if Re.is_open c then option_map S (Re.match_len r s) else None).
  now rewrite match_lazy_closer.
Qed.

Lemma has_closer_at (s : string) :
  has_closer s = match closer_at s with Some _ => true | None => false end.
Proof.
  induction s as [|c s IH]; [reflexivity|].
  cbn [has_closer closer_at].
  destruct (Re.is_close c); [reflexivity|].
  destruct (Re.is_newline c); [reflexivity|].
  rewrite IH. now destruct (closer_at s).
Qed.

Lemma sub_bracketed_from (s : string) :
  Re.sub_from Re.bracketed "" 0 s = drop_runs false s
  /\ forall k, closer_at s = Some k ->
               Re.sub_from Re.bracketed "" (S k) s = drop_runs true s.
Proof.
  induction s as [|c s [IH0 IHk]]; [split; [reflexivity | discriminate]|].
  split.
  - cbn [Re.sub_from drop_runs]. rewrite match_bracketed, has_closer_at.
    destruct (Re.is_open c); cbn [andb].
    + destruct (closer_at s) as [j|] eqn:Ej; cbn [option_map].
      * cbn [append]. now apply IHk.
      * now rewrite IH0.
    + now rewrite IH0.
  - intros k Hk. cbn [Re.sub_from drop_runs]. cbn [closer_at] in Hk.
    destruct (Re.is_close c).
    + injection Hk as <-. exact IH0.
    + destruct (Re.is_newline c); [discriminate|].
      destruct (closer_at s) as [j|]; [|discriminate].
      injection Hk as <-. now apply IHk.
Qed.

Lemma sub_bracketed (s : string) : Re.sub Re.bracketed "" s = drop_runs false s.
Proof. apply sub_bracketed_from. Qed.

Lemma clean_game_name_described (file : string) :
  clean_game_name file
  = strip (space_each (drop_runs false (PurePath.stem file))).
Proof.
  unfold clean_game_name. now rewrite sub_bracketed, sub_separator.
Qed.

(** ** The loops of the scanner *)

Lemma scan_files_ok igf cf root files acc :
  stat_fails igf files = false ->
  scan_files igf cf root files acc
  = Ok (acc ++ records_of igf cf root files)%list.
Proof.
  revert acc; induction files as [|[f mt] files IH]; intros acc Hs.
  - cbn. now rewrite app_nil_r.
  - cbn [stat_fails existsb fst snd] in Hs.
    apply orb_false_iff in Hs as [Hf Hs]. fold (stat_fails igf files) in Hs.
    cbn [scan_files records_of flat_map fst snd].
    fold (records_of igf cf root files).
    unfold matched in *.
    destruct (mem f igf); cbn [negb andb] in *; [now apply IH|].
    destruct (mem (lower (PurePath.suffix f)) save_extensions);
      cbn [app]; [|now apply IH].
    destruct mt as [t|]; [|discriminate].
    unfold record_of, triple_of.
    destruct (detect_returns cf (PurePath.join root f)) as ([[c e] h] & -> & _).
    rewrite IH by assumption. cbn [fst snd]. now rewrite <- app_assoc.
Qed.

Lemma scan_files_raise igf cf root files acc :
  stat_fails igf files = true ->
  exists f, In (f, None) files /\ matched igf f = true
            /\ scan_files igf cf root files acc
               = Raise (OSError (PurePath.join root f)).
Proof.
  revert acc; induction files as [|[f mt] files IH]; intros acc Hs;
    [discriminate|].
  cbn [stat_fails existsb fst snd] in Hs.
  fold (stat_fails igf files) in Hs.
  cbn [scan_files]. unfold matched in *.
  destruct (mem f igf) eqn:Ei; cbn [negb andb orb] in *.
  - destruct (IH acc Hs) as (g & Hin & Hm & Hr).
    exists g. split; [now right | now split].
  - destruct (mem (lower (PurePath.suffix f)) save_extensions) eqn:Ee;
      cbn [andb orb] in *.
    + destruct mt as [t|].
      * destruct (detect_returns cf (PurePath.join root f))
          as ([[c e] h] & -> & _).
        destruct (IH (acc ++ [mk_save_info c (clean_game_name f)
                                (PurePath.join root f) t e h])%list Hs)
          as (g & Hin & Hm & Hr).
        exists g. split; [now right | now split].
      * exists f. split; [now left|]. now rewrite Ei, Ee.
    + destruct (IH acc Hs) as (g & Hin & Hm & Hr).
      exists g. split; [now right | now split].
Qed.

Lemma scan_walk_ok igf cf items acc :
  walk_fails igf items = false ->
  scan_walk igf cf items acc = Ok (acc ++ all_records igf cf items)%list.
Proof.
  revert acc; induction items as [|[[root dn] fl] items IH]; intros acc Hs.
  - cbn. now rewrite app_nil_r.
  - cbn [walk_fails existsb snd] in Hs.
    apply orb_false_iff in Hs as [Hf Hs]. fold (walk_fails igf items) in Hs.
    cbn [scan_walk all_records flat_map fst snd].
    fold (all_records igf cf items).
    rewrite scan_files_ok by assumption.
    rewrite IH by assumption. now rewrite <- app_assoc.
Qed.

Lemma scan_walk_raise igf cf items acc :
  walk_fails igf items = true ->
  exists root dn fl f,
    In (root, dn, fl) items /\ In (f, None) fl /\ matched igf f = true
    /\ scan_walk igf cf items acc = Raise (OSError (PurePath.join root f)).
Proof.
  revert acc; induction items as [|[[root dn] fl] items IH]; intros acc Hs;
    [discriminate|].
  cbn [walk_fails existsb snd] in Hs. fold (walk_fails igf items) in Hs.
  cbn [scan_walk].
  destruct (stat_fails igf fl) eqn:Ef.
  - destruct (scan_files_raise igf cf root fl acc Ef) as (f & Hin & Hm & ->).
    exists root, dn, fl, f. split; [now left | now repeat split].
  - rewrite scan_files_ok by assumption.
    cbn [orb] in Hs.
    destruct (IH (acc ++ records_of igf cf root fl)%list Hs)
      as (r & d & l & f & Hin & Hf & Hm & Hr).
    exists r, d, l, f. split; [now right | now repeat split].
Qed.

Lemma scan_directory_unfold ign cf directory fs :
  scan_directory ign cf directory fs
  = scan_walk (snd (load_ignore_list ign)) cf (visited ign directory fs) []%list.
Proof.
  unfold scan_directory, visited. now destruct (load_ignore_list ign).
Qed.

(** a scan that meets no stat failure returns the records of the matched
    files of the directories it visits, in the order of the walk *)
Lemma scan_directory_ok ign cf directory fs :
  stat_failure ign directory fs = false ->
  scan_directory ign cf directory fs
  = Ok (all_records (snd (load_ignore_list ign)) cf (visited ign directory fs)).
Proof.
  intros H. rewrite scan_directory_unfold. now rewrite scan_walk_ok.
Qed.

(** a scan that meets one raises the error of the first *)
Lemma scan_directory_raise ign cf directory fs :
  stat_failure ign directory fs = true ->
  exists root dn fl f,
    In (root, dn, fl) (visited ign directory fs)
    /\ In (f, None) fl /\ matched (snd (load_ignore_list ign)) f = true
    /\ scan_directory ign cf directory fs
       = Raise (OSError (PurePath.join root f)).
Proof.
  intros H. rewrite scan_directory_unfold. now apply scan_walk_raise.
Qed.

Lemma scan_directory_records ign cf directory fs recs :
  scan_directory ign cf directory fs = Ok recs ->
  recs = all_records (snd (load_ignore_list ign)) cf (visited ign directory fs).
Proof.
  intros H. destruct (stat_failure ign directory fs) eqn:E.
  - destruct (scan_directory_raise ign cf directory fs E)
      as (r & d & l & f & _ & _ & _ & Hr). congruence.
  - rewrite scan_directory_ok in H by assumption. congruence.
Qed.

Lemma in_records_of igf cf root files r :
  In r (records_of igf cf root files) ->
  exists f t, In (f, Some t) files /\ matched igf f = true
              /\ r = record_of cf root f t.
Proof.
  unfold records_of. intros H.
  apply in_flat_map in H as ([f mt] & Hin & Hr). cbn [fst snd] in Hr.
  destruct (matched igf f) eqn:Em; [|contradiction].
  destruct mt as [t|]; [|contradiction].
  destruct Hr as [<- | []]. now exists f, t.
Qed.

Lemma records_of_in igf cf root files f t :
  In (f, Some t) files -> matched igf f = true ->
  In (record_of cf root f t) (records_of igf cf root files).
Proof.
  intros Hin Hm. unfold records_of.
  apply in_flat_map. exists (f, Some t). split; [assumption|].
  cbn [fst snd]. rewrite Hm. now left.
Qed.

Lemma in_all_records igf cf items r :
  In r (all_records igf cf items) ->
  exists root dn fl f t,
    In (root, dn, fl) items /\ In (f, Some t) fl /\ matched igf f = true
    /\ r = record_of cf root f t.
Proof.
  unfold all_records. intros H.
  apply in_flat_map in H as ([[root dn] fl] & Hin & Hr). cbn [fst snd] in Hr.
  apply in_records_of in Hr as (f & t & Hf & Hm & ->).
  now exists root, dn, fl, f, t.
Qed.

(** ** Paths built by [os.path.join] *)

Lemma append_assoc (a b c : string) : (a ++ b) ++ c = a ++ (b ++ c).
Proof. induction a as [|x a IH]; cbn; [reflexivity | now rewrite IH]. Qed.

Lemma append_nil_r (a : string) : a ++ "" = a.
Proof. induction a as [|x a IH]; cbn; [reflexivity | now rewrite IH]. Qed.

Lemma append_inv_head (a b c : string) : a ++ b = a ++ c -> b = c.
Proof.
  induction a as [|x a IH]; cbn; [trivial|].
  intros [= H]. now apply IH.
Qed.

Lemma append_eq_self (a b : string) : a = a ++ b -> b = "".
Proof.
  intros H. apply (append_inv_head a). now rewrite append_nil_r.
Qed.

Lemma valid_name_inv (s : string) :
  valid_name s = true -> no_slash s = true /\ s <> "".
Proof.
  unfold valid_name. intros H. apply andb_true_iff in H as [H1 H2].
  apply negb_true_iff, String.eqb_neq in H2. now split.
Qed.

Lemma startswith_slash_valid (b : string) :
  no_slash b = true -> startswith "/" b = false.
Proof.
  destruct b as [|x b]; [reflexivity|].
  cbn [no_slash]. intros H. apply andb_true_iff in H as [H _].
  apply negb_true_iff in H.
  change (startswith "/" (String x b)) with (Ascii.eqb "/" x && true).
  destruct (Ascii.eqb_spec "/" x) as [<-|_]; [discriminate | reflexivity].
Qed.

Lemma endswith_slash_valid (b : string) :
  valid_name b = true -> endswith_char "/" b = false.
Proof.
  intros H. apply valid_name_inv in H as [Hs Hne].
  induction b as [|x b IH]; [congruence|].
  cbn in Hs. apply andb_true_iff in Hs as [Hx Hs].
  apply negb_true_iff in Hx.
  destruct b as [|y b]; [exact Hx|].
  change (endswith_char "/" (String x (String y b)))
    with (endswith_char "/" (String y b)).
  apply IH; [assumption | discriminate].
Qed.

Lemma endswith_slash_app (a b : string) :
  valid_name b = true -> endswith_char "/" (a ++ b) = false.
Proof.
  intros Hb. induction a as [|x a IH]; [now apply endswith_slash_valid|].
  cbn [append].
  destruct (a ++ b) as [|y r] eqn:E.
  - destruct a; [|discriminate]. cbn in E. subst b. discriminate.
  - exact IH.
Qed.

Lemma join_valid (a b : string) :
  valid_name b = true -> PurePath.join a b = a ++ separator_after a ++ b.
Proof.
  intros H. destruct (valid_name_inv b H) as [Hs _].
  unfold PurePath.join, separator_after.
  rewrite (startswith_slash_valid b Hs).
  now destruct (String.eqb a "" || endswith_char "/" a).
Qed.

Lemma separator_after_join (a b : string) :
  valid_name b = true -> separator_after (PurePath.join a b) = "/".
Proof.
  intros H. rewrite join_valid by assumption.
  unfold separator_after at 1.
  rewrite <- append_assoc, endswith_slash_app by assumption.
  destruct (String.eqb_spec ((a ++ separator_after a) ++ b) "") as [E|_];
    [|reflexivity].
  destruct (valid_name_inv b H) as [_ Hne].
  destruct ((a ++ separator_after a)); cbn in E; [congruence | discriminate].
Qed.

Lemma path_below_valid (top : string) (ds : list string) :
  Forall (fun d => valid_name d = true) ds -> ds <> [] ->
  path_below top ds = top ++ separator_after top ++ String.concat "/" ds.
Proof.
  unfold path_below.
  revert top; induction ds as [|d ds IH]; intros top Hv Hne; [congruence|].
  inversion Hv as [|? ? Hd Hds]; subst.
  cbn [fold_left].
  destruct ds as [|d' ds].
  - cbn. now apply join_valid.
  - rewrite IH by (assumption || discriminate).
    rewrite separator_after_join by assumption.
    rewrite join_valid by assumption.
    change (String.concat "/" (d :: d' :: ds))
      with (d ++ "/" ++ String.concat "/" (d' :: ds)).
    now rewrite !append_assoc.
Qed.

Lemma component_inj (c c' x x' : string) :
  no_slash c = true -> no_slash c' = true ->
  x = "" \/ (exists y, x = String "/" y) ->
  x' = "" \/ (exists y, x' = String "/" y) ->
  c ++ x = c' ++ x' -> c = c' /\ x = x'.
Proof.
  revert c'; induction c as [|a c IH]; intros c' Hc Hc' Hx Hx' E.
  - destruct c' as [|a' c']; [now split|].
    cbn in E, Hc'. apply andb_true_iff in Hc' as [Ha' _].
    destruct Hx as [-> | [y ->]]; [discriminate|].
    injection E as <- _. discriminate.
  - cbn in Hc. apply andb_true_iff in Hc as [Ha Hc].
    destruct c' as [|a' c'].
    + cbn in E.
      destruct Hx' as [-> | [y ->]]; [discriminate|].
      injection E as -> _. discriminate.
    + cbn in E, Hc'. apply andb_true_iff in Hc' as [_ Hc'].
      injection E as -> E.
      destruct (IH c' Hc Hc' Hx Hx' E) as [-> ->]. now split.
Qed.

Lemma concat_cons (c : string) (cs : list string) :
  String.concat "/" (c :: cs)
  = c ++ match cs with
         | [] => ""
         | _ :: _ => String "/" (String.concat "/" cs)
         end.
Proof.
  destruct cs; [cbn; now rewrite append_nil_r | reflexivity].
Qed.

Lemma concat_inj (cs cs' : list string) :
  Forall (fun d => valid_name d = true) cs ->
  Forall (fun d => valid_name d = true) cs' ->
  cs <> [] -> cs' <> [] ->
  String.concat "/" cs = String.concat "/" cs' -> cs = cs'.
Proof.
  revert cs'; induction cs as [|c cs IH]; intros cs' Hv Hv' Hn Hn' E;
    [congruence|].
  destruct cs' as [|c' cs']; [congruence|].
  inversion Hv as [|? ? Hc Hcs]; inversion Hv' as [|? ? Hc' Hcs']; subst.
  rewrite !concat_cons in E.
  apply component_inj in E as [-> E].
  - f_equal.
    destruct cs as [|d cs], cs' as [|d' cs']; try discriminate; [reflexivity|].
    injection E as E. apply IH; (assumption || discriminate).
  - now apply valid_name_inv in Hc.
  - now apply valid_name_inv in Hc'.
  - destruct cs; [now left | right; eauto].
  - destruct cs'; [now left | right; eauto].
Qed.

Lemma concat_valid_not_nil (c : string) (cs : list string) :
  valid_name c = true -> String.concat "/" (c :: cs) <> "".
Proof.
  intros H. apply valid_name_inv in H as [_ Hne].
  rewrite concat_cons. destruct c; [congruence | discriminate].
Qed.

(** below one root, different lists of names give different paths *)
Lemma path_below_inj (top : string) (ds ds' : list string) :
  Forall (fun d => valid_name d = true) ds ->
  Forall (fun d => valid_name d = true) ds' ->
  path_below top ds = path_below top ds' -> ds = ds'.
Proof.
  intros Hv Hv' E.
  assert (Hnil : forall d l,
             Forall (fun d => valid_name d = true) (d :: l) ->
             top <> path_below top (d :: l)).
  { intros d l Hl Heq.
    rewrite path_below_valid in Heq by (assumption || discriminate).
    apply append_eq_self in Heq.
    inversion Hl; subst.
    destruct (separator_after top); [|discriminate].
    now apply (concat_valid_not_nil d l). }
  destruct ds as [|d ds], ds' as [|d' ds']; [reflexivity | | |].
  - exfalso. now apply (Hnil d' ds').
  - exfalso. now apply (Hnil d ds).
  - rewrite !path_below_valid in E by (assumption || discriminate).
    apply append_inv_head, append_inv_head in E.
    apply concat_inj; (assumption || discriminate).
Qed.

Lemma path_below_snoc (top : string) (ds : list string) (f : string) :
  PurePath.join (path_below top ds) f = path_below top (ds ++ [f])%list.
Proof. unfold path_below. now rewrite fold_left_app. Qed.

(** ** The walk *)

Lemma node_induction (P : node -> Prop) :
  (forall nm mt, P (File nm mt)) ->
  (forall nm es, Forall P es -> P (Dir nm es)) ->
  (forall nm, P (Unlistable nm)) ->
  forall n, P n.
Proof.
  intros Hf Hd Hu. fix IH 1. intros [nm mt | nm es | nm].
  - apply Hf.
  - apply Hd. induction es as [|c es IHes]; constructor; [apply IH | exact IHes].
  - apply Hu.
Qed.

Lemma in_file_entries (es : list node) (f : string) (mt : option string) :
  In (f, mt) (file_entries es) <-> In (File f mt) es.
Proof.
  induction es as [|c es IH]; [reflexivity|].
  destruct c as [g m | g sub | g]; cbn [file_entries In]; rewrite IH.
  - split; intros [H | H]; auto; left; congruence.
  - split; [auto | intros [H | H]; [discriminate | assumption]].
  - split; [auto | intros [H | H]; [discriminate | assumption]].
Qed.

Lemma os_walk_visits (keep : string -> bool) (n : node) :
  forall top t dn fl,
    In (t, dn, fl) (os_walk keep top n) ->
    exists ds es, visits keep n ds es /\ t = path_below top ds
                  /\ dn = dir_names es /\ fl = file_entries es.
Proof.
  induction n as [nm mt | nm es IH | nm] using node_induction;
    intros top t dn fl Hin; try contradiction.
  cbn [os_walk In] in Hin. destruct Hin as [[= <- <- <-] | Hin].
  - exists []%list, es. repeat split. constructor.
  - apply in_flat_map in Hin as (c & Hc & Hin).
    destruct (is_dir c && keep (node_name c)) eqn:Ek; [|contradiction].
    apply andb_true_iff in Ek as [_ Ek].
    rewrite Forall_forall in IH.
    destruct (IH c Hc _ _ _ _ Hin) as (ds & es' & Hv & -> & -> & ->).
    exists (node_name c :: ds)%list, es'. repeat split.
    now apply visits_below.
Qed.

Lemma visits_kept keep n ds es :
  visits keep n ds es -> Forall (fun d => keep d = true) ds.
Proof. induction 1; constructor; assumption. Qed.

Lemma visits_names keep n ds es :
  visits keep n ds es -> names_ok n = true ->
  Forall (fun d => valid_name d = true) ds
  /\ forall c, In c es -> valid_name (node_name c) = true.
Proof.
  induction 1 as [nm es | nm es c ds es' Hc Hk Hv IH]; intros Hok;
    cbn [names_ok] in Hok; rewrite forallb_forall in Hok.
  - split; [constructor|].
    intros c Hc. specialize (Hok c Hc). now apply andb_true_iff in Hok.
  - specialize (Hok c Hc). apply andb_true_iff in Hok as [Hn Hsub].
    destruct (IH Hsub) as [Hds Hes]. split; [now constructor | assumption].
Qed.

Lemma mem_In (x : string) (l : list string) : mem x l = true <-> In x l.
Proof.
  unfold mem. rewrite existsb_exists. split.
  - intros (y & Hy & E). apply String.eqb_eq in E. now subst.
  - intros H. exists x. split; [assumption | apply String.eqb_refl].
Qed.

Lemma mem_not_In (x : string) (l : list string) : mem x l = false <-> ~ In x l.
Proof.
  rewrite <- mem_In. destruct (mem x l); split; congruence.
Qed.

Lemma file_entries_without (es : list node) :
  file_entries (flat_map (fun c => match c with
                                   | Unlistable _ => []
                                   | _ => [without_unlistable c]
                                   end) es)
  = file_entries es.
Proof.
  induction es as [|c es IH]; [reflexivity|].
  destruct c as [f mt | nm sub | nm]; cbn [flat_map app file_entries without_unlistable];
    now rewrite ?IH.
Qed.

Lemma walk_without_unlistable (keep : string -> bool) (n : node) :
  forall top,
    map step_view (os_walk keep top (without_unlistable n))
    = map step_view (os_walk keep top n).
Proof.
  induction n as [nm mt | nm es IH | nm] using node_induction;
    intros top; try reflexivity.
  cbn [without_unlistable os_walk map]. f_equal.
  - unfold step_view; cbn [fst snd]. now rewrite file_entries_without.
  - induction IH as [|c es Hc _ IHes]; [reflexivity|].
    cbn [flat_map]. rewrite flat_map_app, !map_app, IHes. f_equal.
    destruct c as [f mt | d sub | d].
    + reflexivity.
    + cbn [flat_map]. rewrite app_nil_r.
      change (node_name (without_unlistable (Dir d sub))) with d.
      change (is_dir (without_unlistable (Dir d sub))) with true.
      cbn [is_dir node_name andb].
      destruct (keep d); [apply Hc | reflexivity].
    + cbn [flat_map is_dir node_name andb os_walk map].
      now destruct (keep d).
Qed.

Lemma scan_walk_view igf cf items1 items2 acc :
  map step_view items1 = map step_view items2 ->
  scan_walk igf cf items1 acc = scan_walk igf cf items2 acc.
Proof.
  revert items2 acc;
    induction items1 as [|[[r1 d1] f1] items1 IH]; intros items2 acc E.
  - destruct items2; [reflexivity | discriminate].
  - destruct items2 as [|[[r2 d2] f2] items2]; [discriminate|].
    cbn [map] in E. unfold step_view in E at 1 3. cbn [fst snd] in E.
    injection E as -> -> E.
    cbn [scan_walk].
    destruct (scan_files igf cf r2 f2 acc); [now apply IH | reflexivity].
Qed.

Lemma walk_fails_iff igf items :
  walk_fails igf items = true
  <-> exists root dn fl f,
        In (root, dn, fl) items /\ In (f, None) fl /\ matched igf f = true.
Proof.
  unfold walk_fails, stat_fails. rewrite existsb_exists. split.
  - intros ([[root dn] fl] & Hin & H). cbn [snd] in H.
    apply existsb_exists in H as ([f mt] & Hf & H). cbn [fst snd] in H.
    apply andb_true_iff in H as [Hm Hn].
    destruct mt; [discriminate|]. now exists root, dn, fl, f.
  - intros (root & dn & fl & f & Hin & Hf & Hm).
    exists (root, dn, fl). split; [assumption|]. cbn [snd].
    apply existsb_exists. exists (f, None). split; [assumption|].
    cbn [fst snd]. now rewrite Hm.
Qed.

(** ** The claims about the scanner *)

(** C2 (as the code has it).  For every root that cannot be listed
    (it does not exist, or permission is denied) [scan_directory] raises
    nothing: the walk ignores the error and yields no step, the result is
    the empty list of records, and [ScannerThread.run] reports "Found 0
    save files" and emits [finished_signal] with the empty list, not
    [error_signal]. *)
Theorem inaccessible_root_gives_empty_result :
  forall (ign : ignore_file) (cf : config_file) (directory nm : string),
    scan_directory ign cf directory (Unlistable nm) = Ok []%list
    /\ run ign cf directory (Unlistable nm)
       = [ progress_signal "Starting scan...";
           progress_signal "Found 0 save files";
           finished_signal [] ]%list.
Proof.
  intros ign cf directory nm.
  assert (H : scan_directory ign cf directory (Unlistable nm) = Ok []%list).
  { unfold scan_directory. now destruct (load_ignore_list ign). }
  split; [exact H|]. unfold run. now rewrite H.
Qed.

(** C2 as stated fails: the scan of a missing root raises no error. *)
Lemma inaccessible_root_no_error :
  ~ (exists e, scan_directory IgnoreAbsent ConfigUnusable "/no/such/dir"
                 (Unlistable "dir") = Raise e)
  /\ ~ In (error_signal (OSError "/no/such/dir"))
          (run IgnoreAbsent ConfigUnusable "/no/such/dir" (Unlistable "dir")).
Proof.
  split.
  - intros [e H]. discriminate H.
  - cbn. intros [H | [H | [H | []]]]; discriminate H.
Qed.

(** C3 (as the code has it).  A subdirectory that cannot be listed is
    tolerated: the scan gives what it gives on the tree without such
    subdirectories.  A matched file that cannot be stat'ed is not: if some
    visited directory lists a file that is not ignored, has a save
    extension and whose modification time cannot be read, the scan raises
    and returns no record; if there is no such file, the scan returns the
    records of all matched files of the visited directories. *)
Theorem scan_tolerates_unlistable_directories_only :
  forall (ign : ignore_file) (cf : config_file) (directory : string) (fs : node),
    scan_directory ign cf directory (without_unlistable fs)
    = scan_directory ign cf directory fs
    /\ ((exists root dn fl f,
            In (root, dn, fl) (visited ign directory fs)
            /\ In (f, None) fl
            /\ matched (snd (load_ignore_list ign)) f = true) ->
        exists e, scan_directory ign cf directory fs = Raise e)
    /\ ((forall root dn fl f,
            In (root, dn, fl) (visited ign directory fs) ->
            In (f, None) fl ->
            matched (snd (load_ignore_list ign)) f = false) ->
        scan_directory ign cf directory fs
        = Ok (all_records (snd (load_ignore_list ign)) cf
                (visited ign directory fs))).
Proof.
  intros ign cf directory fs. repeat split.
  - rewrite !scan_directory_unfold. apply scan_walk_view.
    apply walk_without_unlistable.
  - intros H. apply walk_fails_iff in H.
    destruct (scan_directory_raise ign cf directory fs H)
      as (root & dn & fl & f & _ & _ & _ & Hr).
    now exists (OSError (PurePath.join root f)).
  - intros H. apply scan_directory_ok.
    unfold stat_failure.
    destruct (walk_fails _ _) eqn:E; [|reflexivity].
    apply walk_fails_iff in E as (root & dn & fl & f & Hin & Hf & Hm).
    rewrite (H root dn fl f Hin Hf) in Hm. discriminate.
Qed.

Lemma scan_tolerates_unlistable_directories_only_witness :
  exists e,
    scan_directory IgnoreAbsent ConfigUnusable "/r"
      (Dir "r" [ File "a.sav" (Some "2024-05-01 10:00:00");
                 Unlistable "private";
                 File "gone.sav" None ]) = Raise e.
Proof.
  apply (proj1 (proj2 (scan_tolerates_unlistable_directories_only
                         IgnoreAbsent ConfigUnusable "/r"
                         (Dir "r" [ File "a.sav" (Some "2024-05-01 10:00:00");
                                    Unlistable "private";
                                    File "gone.sav" None ])))).
  exists "/r", ["private"]%list,
         [("a.sav", Some "2024-05-01 10:00:00"); ("gone.sav", None)]%list,
         "gone.sav".
  split; [left; reflexivity|]. split; [right; left; reflexivity | reflexivity].
Defined.

(** C3 as stated fails: with [gone.sav] removed between listing and stat
    the scan returns no record at all, not the record of [a.sav]. *)
Lemma removed_file_aborts_scan :
  scan_directory IgnoreAbsent ConfigUnusable "/r"
    (Dir "r" [ File "a.sav" (Some "2024-05-01 10:00:00");
               File "gone.sav" None ])
  = Raise (OSError "/r/gone.sav")
  /\ scan_directory IgnoreAbsent ConfigUnusable "/r"
       (Dir "r" [ File "a.sav" (Some "2024-05-01 10:00:00") ])
     = Ok [ mk_save_info "Game Boy" "a" "/r/a.sav" "2024-05-01 10:00:00"
              "mGBA/VBA" "Original" ]%list
  /\ run IgnoreAbsent ConfigUnusable "/r"
       (Dir "r" [ File "a.sav" (Some "2024-05-01 10:00:00");
                  File "gone.sav" None ])
     = [ progress_signal "Starting scan...";
         error_signal (OSError "/r/gone.sav") ]%list.
Proof. repeat split; reflexivity. Qed.

(** C4 (as the code has it).  The game name of a file name is its stem
    from which every run is removed that starts at a [[] or a [(] and ends
    at the first []] or [)] after it (a closing bracket of either kind ends
    the run, and an opening bracket is kept when a line feed or the end of
    the stem comes before any closing bracket), in which every [.], [_]
    and [-] is then replaced by a space (one space for each character, so
    a run of n separators gives n spaces), and which is then trimmed; every
    record of a scan carries the game name of a file listed in a visited
    directory.  'Zelda (USA) [v1.1].sav' gives "Zelda" and
    'Super_Mario-World.srm' gives "Super Mario World"; 'Game (Disc 1
    [!]).sav' gives "Game )", and a parenthesis closed on the next line
    stays. *)
Theorem game_name_derivation :
  (forall file : string,
      clean_game_name file
      = strip (space_each (drop_runs false (PurePath.stem file))))
  /\ (forall ign cf directory fs recs r,
         scan_directory ign cf directory fs = Ok recs -> In r recs ->
         exists root dn fl file t,
           In (root, dn, fl) (visited ign directory fs)
           /\ In (file, Some t) fl
           /\ save_path r = PurePath.join root file
           /\ game_name r
              = strip (space_each (drop_runs false (PurePath.stem file))))
  /\ clean_game_name "Zelda (USA) [v1.1].sav" = "Zelda"
  /\ clean_game_name "Super_Mario-World.srm" = "Super Mario World"
  /\ clean_game_name "Game (Disc 1 [!]).sav" = "Game )"
  /\ clean_game_name ("a(b" ++ String "010" "c)d.sav")
     = "a(b" ++ String "010" "c)d".
Proof.
  split; [exact clean_game_name_described|].
  split; [|repeat split; reflexivity].
  intros ign cf directory fs recs r Hs Hr.
  apply scan_directory_records in Hs. subst recs.
  apply in_all_records in Hr as (root & dn & fl & f & t & Hin & Hf & _ & ->).
  exists root, dn, fl, f, t. repeat split; try assumption.
  apply clean_game_name_described.
Qed.

Lemma game_name_derivation_witness :
  exists root dn fl file t,
    In (root, dn, fl)
       (visited IgnoreAbsent "/r"
          (Dir "r" [ File "Mega__Man (E).sav" (Some "2024-05-01 10:00:00") ]))
    /\ In (file, Some t) fl
    /\ "/r/Mega__Man (E).sav" = PurePath.join root file
    /\ "Mega  Man"
       = strip (space_each (drop_runs false (PurePath.stem file))).
Proof.
  apply (proj1 (proj2 game_name_derivation)
           IgnoreAbsent ConfigUnusable "/r"
           (Dir "r" [ File "Mega__Man (E).sav" (Some "2024-05-01 10:00:00") ])
           [ mk_save_info "Game Boy" "Mega  Man" "/r/Mega__Man (E).sav"
               "2024-05-01 10:00:00" "mGBA/VBA" "Original" ]%list
           (mk_save_info "Game Boy" "Mega  Man" "/r/Mega__Man (E).sav"
              "2024-05-01 10:00:00" "mGBA/VBA" "Original")).
  - reflexivity.
  - left; reflexivity.
Defined.

(** C4 as stated fails twice.  A run of two separators gives two spaces,
    where the claim has a single one; and of the parenthesized run of
    'Game (Disc 1 [!]).sav' only the part up to the first closing bracket
    is removed, so that a parenthesis is left, where the claim removes the
    whole run. *)
Lemma game_name_not_as_claimed :
  scan_directory IgnoreAbsent ConfigUnusable "/r"
    (Dir "r" [ File "Mega__Man.sav" (Some "2024-05-01 10:00:00");
               File "Game (Disc 1 [!]).sav" (Some "2024-05-02 11:00:00") ])
  = Ok [ mk_save_info "Game Boy" "Mega  Man" "/r/Mega__Man.sav"
           "2024-05-01 10:00:00" "mGBA/VBA" "Original";
         mk_save_info "Game Boy" "Game )" "/r/Game (Disc 1 [!]).sav"
           "2024-05-02 11:00:00" "mGBA/VBA" "Original" ]%list
  /\ game_name_of "Mega__Man.sav" = "Mega Man"
  /\ clean_game_name "Mega__Man.sav" <> game_name_of "Mega__Man.sav"
  /\ game_name_of "Game (Disc 1 [!]).sav" = "Game"
  /\ clean_game_name "Game (Disc 1 [!]).sav"
     <> game_name_of "Game (Disc 1 [!]).sav"
  /\ game_name_of "Zelda (USA) [v1.1].sav" = "Zelda"
  /\ game_name_of "Super_Mario-World.srm" = "Super Mario World".
Proof. repeat split; try reflexivity; discriminate. Qed.

(** C8. In a tree whose entries have proper names, a directory that lies
    below the root through a subdirectory whose exact name is in
    [ignore_directories] is never visited by the walk, and no record of the
    scan has the path of a file of such a directory as its [save_path]. *)
Theorem ignored_directories_never_visited :
  forall (ign : ignore_file) (cf : config_file) (directory : string)
         (fs : node) (ds : list string) (d : string),
    names_ok fs = true ->
    Forall (fun x => valid_name x = true) ds ->
    In d ds ->
    In d (fst (load_ignore_list ign)) ->
    (forall dn fl,
        ~ In (path_below directory ds, dn, fl) (visited ign directory fs))
    /\ (forall recs r f,
           scan_directory ign cf directory fs = Ok recs ->
           In r recs ->
           valid_name f = true ->
           save_path r <> PurePath.join (path_below directory ds) f).
Proof.
  intros ign cf directory fs ds d Hok Hds Hd Hign.
  assert (Hkept : ~ Forall (fun x => negb (mem x (fst (load_ignore_list ign)))
                                     = true) ds).
  { intros H. rewrite Forall_forall in H. specialize (H d Hd).
    apply negb_true_iff, mem_not_In in H. contradiction. }
  split.
  - intros dn fl Hin. unfold visited in Hin.
    apply os_walk_visits in Hin as (ds0 & es & Hv & E & _ & _).
    destruct (visits_names _ _ _ _ Hv Hok) as [Hds0 _].
    apply path_below_inj in E; [|assumption|assumption].
    subst ds0. apply Hkept. exact (visits_kept _ _ _ _ Hv).
  - intros recs r f Hs Hr Hf E.
    apply scan_directory_records in Hs. subst recs.
    apply in_all_records in Hr as (root & dn & fl & f0 & t & Hin & Hf0 & _ & ->).
    unfold visited in Hin.
    apply os_walk_visits in Hin as (ds0 & es & Hv & -> & _ & ->).
    destruct (visits_names _ _ _ _ Hv Hok) as [Hds0 Hes].
    apply in_file_entries in Hf0. specialize (Hes _ Hf0). cbn in Hes.
    cbn [record_of save_path] in E.
    rewrite !path_below_snoc in E.
    apply path_below_inj in E.
    + apply app_inj_tail in E as [-> _].
      apply Hkept. exact (visits_kept _ _ _ _ Hv).
    + apply Forall_app. split; [assumption | now constructor].
    + apply Forall_app. split; [assumption | now constructor].
Qed.

Lemma ignored_directories_never_visited_witness :
  scan_directory (IgnoreDoc (Some ["cache"]%list) None) ConfigUnusable "/r"
    (Dir "r" [ Dir "cache" [ File "x.sav" (Some "2024-05-01 10:00:00") ];
               File "y.sav" (Some "2024-05-02 11:00:00") ])
  = Ok [ mk_save_info "Game Boy" "y" "/r/y.sav" "2024-05-02 11:00:00"
           "mGBA/VBA" "Original" ]%list
  /\ "/r/y.sav" <> PurePath.join (path_below "/r" ["cache"]%list) "x.sav".
Proof.
  split; [reflexivity|].
  apply (proj2 (ignored_directories_never_visited
                  (IgnoreDoc (Some ["cache"]%list) None) ConfigUnusable "/r"
                  (Dir "r" [ Dir "cache"
                               [ File "x.sav" (Some "2024-05-01 10:00:00") ];
                             File "y.sav" (Some "2024-05-02 11:00:00") ])
                  ["cache"]%list "cache"
                  eq_refl
                  (Forall_cons "cache" eq_refl (Forall_nil _))
                  (or_introl eq_refl)
                  (or_introl eq_refl))
           [ mk_save_info "Game Boy" "y" "/r/y.sav" "2024-05-02 11:00:00"
               "mGBA/VBA" "Original" ]%list
           (mk_save_info "Game Boy" "y" "/r/y.sav" "2024-05-02 11:00:00"
              "mGBA/VBA" "Original")
           "x.sav").
  - reflexivity.
  - left; reflexivity.
  - reflexivity.
Defined.

(** C9. When [ignore.json] is missing, cannot be read, or cannot be
    parsed as a document, the loader returns two empty lists and raises
    nothing, and the scan gives exactly what it gives with a document
    whose two lists are empty. *)
Theorem bad_ignore_file_is_empty_ignore_list :
  forall (ign : ignore_file) (cf : config_file) (directory : string) (fs : node),
    ign = IgnoreAbsent \/ ign = IgnoreUnreadable \/ ign = IgnoreInvalid ->
    load_ignore_list ign = ([]%list, []%list)
    /\ scan_directory ign cf directory fs
       = scan_directory (IgnoreDoc (Some []%list) (Some []%list)) cf directory fs.
Proof.
  intros ign cf directory fs [-> | [-> | ->]]; split; reflexivity.
Qed.

Lemma bad_ignore_file_is_empty_ignore_list_witness :
  load_ignore_list IgnoreInvalid = ([]%list, []%list)
  /\ scan_directory IgnoreInvalid ConfigUnusable "/r"
       (Dir "r" [ Dir "cache" [ File "x.sav" (Some "2024-05-01 10:00:00") ] ])
     = scan_directory (IgnoreDoc (Some []%list) (Some []%list)) ConfigUnusable
         "/r"
         (Dir "r" [ Dir "cache" [ File "x.sav" (Some "2024-05-01 10:00:00") ] ]).
Proof.
  apply (bad_ignore_file_is_empty_ignore_list IgnoreInvalid ConfigUnusable "/r"
           (Dir "r" [ Dir "cache"
                        [ File "x.sav" (Some "2024-05-01 10:00:00") ] ])).
  right; right; reflexivity.
Defined.

Lemma no_stat_failure (ign : ignore_file) (directory : string) (fs : node) :
  (forall root dn fl f,
      In (root, dn, fl) (visited ign directory fs) ->
      In (f, None) fl ->
      matched (snd (load_ignore_list ign)) f = false) ->
  stat_failure ign directory fs = false.
Proof.
  intros H. unfold stat_failure.
  destruct (walk_fails _ _) eqn:E; [|reflexivity].
  apply walk_fails_iff in E as (root & dn & fl & f & Hin & Hf & Hm).
  rewrite (H root dn fl f Hin Hf) in Hm. discriminate.
Qed.

Lemma matched_iff (igf : list string) (f : string) :
  matched igf f = true
  <-> ~ In f igf /\ In (lower (PurePath.suffix f)) save_extensions.
Proof.
  unfold matched. rewrite andb_true_iff, negb_true_iff, mem_not_In, mem_In.
  reflexivity.
Qed.

(** C10. The ignore list is applied to the subdirectories met during the
    walk and not to the root: whatever the name of the root, also one that
    [ignore_directories] lists, a scan that meets no stat failure returns
    the records of the matched files of the root.  A subdirectory is
    pruned and a file is skipped exactly when its name is equal, as a
    string, to an entry of the list, while the extension is compared after
    lower-casing: under a root named "cache", with "cache" and "foo.sav"
    ignored, the file FOO.SAV of the root and the file of the subdirectory
    Cache are both recorded. *)
Theorem root_not_pruned_and_matching_exact :
  (forall ign cf directory rname es,
      (forall root dn fl f,
          In (root, dn, fl) (visited ign directory (Dir rname es)) ->
          In (f, None) fl ->
          matched (snd (load_ignore_list ign)) f = false) ->
      exists recs,
        scan_directory ign cf directory (Dir rname es) = Ok recs
        /\ forall f t,
             In (File f (Some t)) es ->
             ~ In f (snd (load_ignore_list ign)) ->
             In (lower (PurePath.suffix f)) save_extensions ->
             In (record_of cf directory f t) recs)
  /\ (forall ign cf directory rname d sub,
         In d (fst (load_ignore_list ign)) ->
         scan_directory ign cf directory (Dir rname [Dir d sub]) = Ok []%list)
  /\ (forall ign cf directory rname d f t,
         ~ In d (fst (load_ignore_list ign)) ->
         ~ In f (snd (load_ignore_list ign)) ->
         In (lower (PurePath.suffix f)) save_extensions ->
         scan_directory ign cf directory (Dir rname [Dir d [File f (Some t)]])
         = Ok [record_of cf (PurePath.join directory d) f t]%list)
  /\ (forall ign cf directory rname f mt,
         In f (snd (load_ignore_list ign)) ->
         scan_directory ign cf directory (Dir rname [File f mt]) = Ok []%list)
  /\ (forall ign cf directory rname f t,
         ~ In f (snd (load_ignore_list ign)) ->
         In (lower (PurePath.suffix f)) save_extensions ->
         scan_directory ign cf directory (Dir rname [File f (Some t)])
         = Ok [record_of cf directory f t]%list)
  /\ scan_directory
       (IgnoreDoc (Some ["cache"]%list) (Some ["foo.sav"]%list))
       ConfigUnusable "/saves/cache"
       (Dir "cache" [ File "FOO.SAV" (Some "2024-05-01 10:00:00");
                      Dir "Cache" [ File "b.mcr" (Some "2024-05-02 11:00:00") ];
                      Dir "cache" [ File "c.mcr" (Some "2024-05-03 12:00:00") ];
                      File "foo.sav" (Some "2024-05-04 13:00:00") ])
     = Ok [ mk_save_info "Game Boy" "FOO" "/saves/cache/FOO.SAV"
              "2024-05-01 10:00:00" "mGBA/VBA" "Original";
            mk_save_info "PS1" "b" "/saves/cache/Cache/b.mcr"
              "2024-05-02 11:00:00" "ePSXe" "Original" ]%list.
Proof.
  split; [|split; [|split; [|split; [|split]]]].
  - intros ign cf directory rname es Hstat.
    eexists. split; [apply scan_directory_ok, no_stat_failure, Hstat|].
    intros f t Hin Hf Hext.
    unfold visited. cbn [os_walk all_records flat_map fst snd].
    apply in_or_app. left.
    apply records_of_in; [now apply in_file_entries | now apply matched_iff].
  - intros ign cf directory rname d sub Hd.
    rewrite scan_directory_unfold. unfold visited.
    cbn [os_walk flat_map is_dir node_name andb].
    apply mem_In in Hd. rewrite Hd. reflexivity.
  - intros ign cf directory rname d f t Hd Hf Hext.
    assert (Hm : matched (snd (load_ignore_list ign)) f = true)
      by now apply matched_iff.
    apply mem_not_In in Hd.
    rewrite scan_directory_ok.
    + unfold visited.
      cbn [os_walk flat_map is_dir node_name andb]. rewrite Hd.
      cbn [negb app all_records records_of flat_map fst snd file_entries].
      rewrite Hm. reflexivity.
    + unfold stat_failure, visited.
      cbn [os_walk flat_map is_dir node_name andb]. rewrite Hd.
      cbn [negb app walk_fails stat_fails existsb fst snd file_entries].
      now rewrite andb_false_r.
  - intros ign cf directory rname f mt Hf.
    rewrite scan_directory_unfold. unfold visited.
    cbn [os_walk flat_map is_dir node_name andb scan_walk file_entries scan_files].
    apply mem_In in Hf. rewrite Hf. reflexivity.
  - intros ign cf directory rname f t Hf Hext.
    assert (Hm : matched (snd (load_ignore_list ign)) f = true)
      by now apply matched_iff.
    rewrite scan_directory_ok.
    + unfold visited.
      cbn [os_walk flat_map is_dir node_name andb
           app all_records records_of fst snd file_entries].
      rewrite Hm. reflexivity.
    + unfold stat_failure, visited.
      cbn [os_walk flat_map is_dir node_name andb
           app walk_fails stat_fails existsb fst snd file_entries].
      now rewrite andb_false_r.
  - reflexivity.
Qed.

Lemma root_not_pruned_and_matching_exact_witness :
  In "cache" (fst (load_ignore_list (IgnoreDoc (Some ["cache"]%list) None)))
  /\ exists recs,
       scan_directory (IgnoreDoc (Some ["cache"]%list) None) ConfigUnusable
         "/saves/cache"
         (Dir "cache" [ File "a.mcr" (Some "2024-05-01 10:00:00");
                        File "gone.txt" None ]) = Ok recs
       /\ forall f t,
            In (File f (Some t))
               [ File "a.mcr" (Some "2024-05-01 10:00:00");
                 File "gone.txt" None ] ->
            ~ In f (snd (load_ignore_list
                           (IgnoreDoc (Some ["cache"]%list) None))) ->
            In (lower (PurePath.suffix f)) save_extensions ->
            In (record_of ConfigUnusable "/saves/cache" f t) recs.
Proof.
  split; [left; reflexivity|].
  apply (proj1 root_not_pruned_and_matching_exact
           (IgnoreDoc (Some ["cache"]%list) None) ConfigUnusable
           "/saves/cache" "cache"
           [ File "a.mcr" (Some "2024-05-01 10:00:00"); File "gone.txt" None ]).
  intros root dn fl f Hin Hf.
  destruct Hin as [[= <- <- <-] | []].
  destruct Hf as [[= ] | [[= <-] | []]].
  reflexivity.
Defined.

(** * Further properties of the code *)

(** ** The classifier *)

Lemma scan_keys_described ep ps sub :
  scan_keys ep ps sub
  = option_map (fun kv => resolved ep (snd kv))
      (find (fun kv => contains (fst kv) ps) sub).
Proof.
  induction sub as [|[k v] sub IH]; [reflexivity|].
  cbn [scan_keys find fst]. now destruct (contains k ps).
Qed.

(** the classifier answers the fallback, or resolves the label of a table
    triple that the path alone selects *)
Lemma detect_selects (p : string) :
  (forall cf, detect_console_type cf p = Ok ("PC", "Unknown", "Unknown"))
  \/ (exists v, forall cf, detect_console_type cf p
                           = Ok (resolved (load_emulator_paths cf) v)).
Proof.
  destruct (table_entry (PurePath.suffix (lower p))) as [[v|sub]|] eqn:E.
  - right. exists v. intros cf. now rewrite detect_by_entry, E.
  - right.
    destruct (table_entry_find _ _ E) as (x & _ & Hok).
    unfold entry_ok in Hok; cbn [snd] in Hok. destruct Hok as [Hne _].
    destruct (find (fun kv => contains (fst kv)
                                (lower (PurePath.path_str (lower p)))) sub)
      as [[k v]|] eqn:Ef.
    + exists v. intros cf. rewrite detect_by_entry, E. cbv zeta.
      now rewrite scan_keys_described, Ef.
    + destruct sub as [|[k v] sub]; [congruence|].
      exists v. intros cf. rewrite detect_by_entry, E. cbv zeta.
      now rewrite scan_keys_described, Ef.
  - left. intros cf. now rewrite detect_by_entry, E.
Qed.

Lemma dict_get_unset (m : list (string * string)) (k : string) :
  Forall (fun kv => snd kv = "") m -> dict_get m k "" = "".
Proof.
  induction 1 as [|[k' v] m Hv _ IH]; [reflexivity|].
  cbn [dict_get]. cbn [snd] in Hv. now destruct (String.eqb k k').
Qed.

(** X2. A configured path that is the empty string counts as no path: when
    every emulator of [emulator_paths] is set to the empty string, each
    path is classified exactly as with an unreadable [config.json], the
    emulator field being the label of the table. *)
Theorem unset_paths_keep_labels :
  forall (m : list (string * string)) (p : string),
    Forall (fun kv => snd kv = "") m ->
    detect_console_type (ConfigDoc (Some m)) p
    = detect_console_type ConfigUnusable p.
Proof.
  intros m p Hm.
  destruct (detect_selects p) as [Hall | (v & Hall)]; rewrite !Hall;
    [reflexivity|].
  unfold resolved. cbn [load_emulator_paths dict_get].
  now rewrite dict_get_unset.
Qed.

Lemma unset_paths_keep_labels_witness :
  detect_console_type (ConfigDoc (Some [("ePSXe", ""); ("PCSX2", "")]))
    "/saves/Crash.mcr"
  = detect_console_type ConfigUnusable "/saves/Crash.mcr".
Proof.
  apply (unset_paths_keep_labels [("ePSXe", ""); ("PCSX2", "")]%list
           "/saves/Crash.mcr").
  repeat constructor.
Defined.

(** X3. In a sub-dictionary the first key, in the order of the table,
    that occurs in the lower-cased path decides: the keys before it do not
    occur, the keys after it are not looked at. *)
Theorem first_key_in_path_wins :
  forall (cf : config_file) (p : string)
         (before : list (string * triple)) (k c label h : string)
         (after : list (string * triple)),
    table_entry (PurePath.suffix (lower p))
    = Some (ByPath (before ++ (k, (c, label, h)) :: after)%list) ->
    (forall k' v', In (k', v') before -> contains k' (lower p) = false) ->
    contains k (lower p) = true ->
    detect_console_type cf p
    = Ok (c, resolve_emulator (load_emulator_paths cf) label, h).
Proof.
  intros cf p before k c label h after E Hbefore Hk.
  destruct (table_entry_find _ _ E) as (x & _ & Hok).
  unfold entry_ok in Hok; cbn [snd] in Hok. destruct Hok as [_ Hall].
  rewrite Forall_forall in Hall.
  rewrite detect_by_entry, E. cbv zeta.
  rewrite scan_keys_first.
  - now rewrite resolved_described.
  - apply Forall_forall. intros [k' v'] Hin. cbn [fst].
    rewrite key_test_on_path.
    + now apply (Hbefore k' v').
    + apply (Hall (k', v')). apply in_or_app. now left.
  - rewrite key_test_on_path; [assumption|].
    apply (Hall (k, (c, label, h))). apply in_or_app. right. now left.
Qed.

Lemma first_key_in_path_wins_witness :
  detect_console_type ConfigUnusable "/roms/Genesis/GBA collection/Sonic.srm"
  = Ok ("GBA", resolve_emulator (load_emulator_paths ConfigUnusable) "mGBA",
        "Advance").
Proof.
  apply (first_key_in_path_wins ConfigUnusable
           "/roms/Genesis/GBA collection/Sonic.srm"
           [ ("snes", ("SNES", "SNES9x", "Original")) ]%list
           "gba" "GBA" "mGBA" "Advance"
           [ ("genesis", ("Sega Genesis", "Fusion", "Original")) ]%list).
  - reflexivity.
  - intros k' v' [[= <- <-] | []]. reflexivity.
  - reflexivity.
Defined.

Lemma find_key_sav (ps : string) :
  option_map snd
    (find (fun kv : string * triple => contains (fst kv) ps)
       [ ("gb", ("Game Boy", "mGBA/VBA", "Original"));
         ("gbc", ("GBC", "mGBA/VBA", "Color"));
         ("gba", ("GBA", "mGBA/VBA", "Advance"));
         ("nes", ("NES", "FCEUX", "Original"));
         ("snes", ("SNES", "SNES9x", "Original")) ]%list)
  = if contains "gb" ps then Some ("Game Boy", "mGBA/VBA", "Original")
    else if contains "nes" ps then Some ("NES", "FCEUX", "Original")
    else None.
Proof.
  cbn [find fst].
  destruct (contains "gb" ps) eqn:Egb; [reflexivity|].
  destruct (contains "gbc" ps) eqn:Egbc.
  { apply (contains_shorter "gb" _ "c") in Egbc. congruence. }
  destruct (contains "gba" ps) eqn:Egba.
  { apply (contains_shorter "gb" _ "a") in Egba. congruence. }
  destruct (contains "nes" ps) eqn:Enes; [reflexivity|].
  destruct (contains "snes" ps) eqn:Esnes; [|reflexivity].
  exfalso. clear - Enes Esnes.
  induction ps as [|y ps IH].
  - discriminate.
  - rewrite contains_cons in Enes, Esnes.
    apply orb_false_iff in Enes as [Hs Hc].
    apply orb_true_iff in Esnes as [H | H].
    + destruct ps as [|z ps]; [destruct y as [[|] [|] [|] [|] [|] [|] [|] [|]]; discriminate|].
      rewrite contains_cons in Hc. apply orb_false_iff in Hc as [Hc _].
      cbn [startswith] in H. apply andb_true_iff in H as [_ H].
      change (startswith "nes" (String z ps) = true) in H. congruence.
    + now apply IH.
Qed.

Lemma option_map_snd_resolved ep (o : option (string * triple)) :
  option_map (fun kv => resolved ep (snd kv)) o
  = option_map (resolved ep) (option_map snd o).
Proof. now destruct o. Qed.

(** X4. A [.sav] path is a Game Boy save unless it contains "nes" and not
    "gb", in which case it is an NES save: of the five keys of the [.sav]
    sub-dictionary only "gb" and "nes" ever decide, and no [.sav] path is
    classified "GBC", "GBA" or "SNES". *)
Theorem sav_is_game_boy_or_nes :
  forall (cf : config_file) (p : string),
    PurePath.suffix (lower p) = ".sav" ->
    detect_console_type cf p
    = Ok (fst (fst (sav_choice (lower p))),
          resolve_emulator (load_emulator_paths cf)
            (snd (fst (sav_choice (lower p)))),
          snd (sav_choice (lower p))).
Proof.
  intros cf p Hext.
  rewrite detect_by_entry, Hext. cbv zeta.
  change (table_entry ".sav")
    with (Some (ByPath [ ("gb", ("Game Boy", "mGBA/VBA", "Original"));
                         ("gbc", ("GBC", "mGBA/VBA", "Color"));
                         ("gba", ("GBA", "mGBA/VBA", "Advance"));
                         ("nes", ("NES", "FCEUX", "Original"));
                         ("snes", ("SNES", "SNES9x", "Original")) ]%list)).
  cbv iota.
  rewrite scan_keys_described, option_map_snd_resolved, find_key_sav.
  rewrite !key_test_on_path by reflexivity.
  unfold sav_choice.
  destruct (contains "gb" (lower p)); cbn [option_map fst snd];
    [now rewrite resolved_described|].
  destruct (contains "nes" (lower p)); cbn [option_map fst snd];
    now rewrite resolved_described.
Qed.

Lemma sav_is_game_boy_or_nes_witness :
  detect_console_type ConfigUnusable "/roms/SNES/Super Metroid.sav"
  = Ok ("NES", resolve_emulator (load_emulator_paths ConfigUnusable) "FCEUX",
        "Original").
Proof.
  apply (sav_is_game_boy_or_nes ConfigUnusable "/roms/SNES/Super Metroid.sav").
  reflexivity.
Defined.

(** X5. A [.srm] path is classified by the first of "snes", "gba",
    "genesis" that it contains, and as SNES when it contains none. *)
Theorem srm_classification :
  forall (cf : config_file) (p : string),
    PurePath.suffix (lower p) = ".srm" ->
    detect_console_type cf p
    = Ok (fst (fst (srm_choice (lower p))),
          resolve_emulator (load_emulator_paths cf)
            (snd (fst (srm_choice (lower p)))),
          snd (srm_choice (lower p))).
Proof.
  intros cf p Hext.
  rewrite detect_by_entry, Hext. cbv zeta.
  change (table_entry ".srm")
    with (Some (ByPath [ ("snes", ("SNES", "SNES9x", "Original"));
                         ("gba", ("GBA", "mGBA", "Advance"));
                         ("genesis", ("Sega Genesis", "Fusion", "Original")) ]%list)).
  cbv iota.
  rewrite scan_keys_described. cbn [find fst].
  rewrite !key_test_on_path by reflexivity.
  unfold srm_choice.
  destruct (contains "snes" (lower p)); cbn [option_map fst snd];
    [now rewrite resolved_described|].
  destruct (contains "gba" (lower p)); cbn [option_map fst snd];
    [now rewrite resolved_described|].
  destruct (contains "genesis" (lower p)); cbn [option_map fst snd];
    now rewrite resolved_described.
Qed.

Lemma srm_classification_witness :
  detect_console_type ConfigUnusable "/roms/Genesis/Sonic 2.SRM"
  = Ok ("Sega Genesis",
        resolve_emulator (load_emulator_paths ConfigUnusable) "Fusion",
        "Original").
Proof.
  apply (srm_classification ConfigUnusable "/roms/Genesis/Sonic 2.SRM").
  reflexivity.
Defined.

Lemma table_entry_triples (ext : string) (info : console_info) :
  table_entry ext = Some info ->
  match info with
  | Direct v => In v table_triples
  | ByPath sub => forall kv, In kv sub -> In (snd kv) table_triples
  end.
Proof.
  intros E. destruct (table_entry_find _ _ E) as (x & Hf & _).
  apply find_some in Hf as [Hin _].
  unfold table_triples.
  destruct info as [v|sub].
  - apply in_flat_map. exists (x, Direct v). split; [assumption | now left].
  - intros kv Hkv. apply in_flat_map. exists (x, ByPath sub).
    split; [assumption|]. cbn [snd]. now apply in_map.
Qed.

(** *** The classifier over every [config.json] *)

Lemma any_answer_dict d (v : Classifier.triple) :
  AnyConfig.answer (AnyConfig.PathsDict d) v
  = Ok (fst (fst v),
        AnyConfig.py_or
          (AnyConfig.dict_get d (first_name (snd (fst v))) (AnyConfig.PathText ""))
          (snd (fst v)),
        snd v).
Proof. reflexivity. Qed.

Lemma any_answer_other (v : Classifier.triple) :
  AnyConfig.answer AnyConfig.PathsOther v = Raise AttributeError.
Proof. reflexivity. Qed.

Lemma any_scan_keys ep ps sub :
  AnyConfig.scan_keys ep ps sub
  = option_map (fun kv => AnyConfig.answer ep (snd kv))
      (find (fun kv => contains (fst kv) ps) sub).
Proof.
  induction sub as [|[k v] sub IH]; [reflexivity|].
  cbn [AnyConfig.scan_keys find fst].
  destruct (contains k ps); [|exact IH].
  unfold AnyConfig.answer. cbn [option_map snd].
  now destruct (AnyConfig.get ep (first_name (snd (fst v)))).
Qed.

Lemma any_scan_table ep path ext items :
  AnyConfig.scan_table ep path ext items
  = match find (fun kv => String.eqb ext (fst kv)) items with
    | None => Ok ("PC", AnyConfig.PathText "Unknown", "Unknown")
    | Some (_, Direct v) => AnyConfig.answer ep v
    | Some (_, ByPath sub) =>
        match find (fun kv => contains (fst kv)
                                (lower (PurePath.path_str path))) sub with
        | Some kv => AnyConfig.answer ep (snd kv)
        | None => match sub with
                  | [] => Raise StopIteration
                  | (_, first_value) :: _ => AnyConfig.answer ep first_value
                  end
        end
    end.
Proof.
  induction items as [|[x info] items IH]; [reflexivity|].
  cbn [AnyConfig.scan_table find fst].
  destruct (String.eqb ext x); [|exact IH].
  destruct info as [v|sub].
  - unfold AnyConfig.answer.
    now destruct (AnyConfig.get ep (first_name (snd (fst v)))).
  - cbv zeta. rewrite any_scan_keys.
    destruct (find _ sub) as [kv|]; [reflexivity|].
    destruct sub as [|[k v] sub]; [reflexivity|].
    cbn [option_map]. unfold AnyConfig.answer.
    now destruct (AnyConfig.get ep (first_name (snd (fst v)))).
Qed.

(** for any [config.json] the classifier answers the fallback, or what
    the [return] statements give for a table triple that the path alone
    selects *)
Lemma any_detect_selects (p : string) :
  (table_entry (PurePath.suffix (lower p)) = None
   /\ forall cj, AnyConfig.detect_console_type cj p
                 = Ok ("PC", AnyConfig.PathText "Unknown", "Unknown"))
  \/ (table_entry (PurePath.suffix (lower p)) <> None
      /\ exists v,
           In v table_triples
           /\ forall cj, AnyConfig.detect_console_type cj p
                         = AnyConfig.answer (AnyConfig.load_emulator_paths cj) v).
Proof.
  unfold AnyConfig.detect_console_type. cbv zeta.
  destruct (table_entry (PurePath.suffix (lower p))) as [info|] eqn:E.
  - right. split; [discriminate|].
    pose proof (table_entry_triples _ _ E) as Hin.
    destruct (table_entry_find _ _ E) as (x & Hf & Hok).
    unfold entry_ok in Hok; cbn [snd] in Hok.
    destruct info as [v|sub].
    + exists v. split; [exact Hin|]. intros cj.
      now rewrite any_scan_table, Hf.
    + destruct Hok as [Hne _].
      destruct (find (fun kv => contains (fst kv)
                                  (lower (PurePath.path_str (lower p)))) sub)
        as [[k v]|] eqn:Ek.
      * exists v. split.
        { apply find_some in Ek as [Hk _]. exact (Hin (k, v) Hk). }
        intros cj. now rewrite any_scan_table, Hf, Ek.
      * destruct sub as [|[k v] sub]; [congruence|].
        exists v. split; [apply (Hin (k, v)); now left|].
        intros cj. now rewrite any_scan_table, Hf, Ek.
  - left. split; [reflexivity|]. intros cj.
    rewrite any_scan_table.
    unfold table_entry in E.
    destruct (find _ console_patterns); [discriminate | reflexivity].
Qed.

Lemma any_dict_get_lift (m : list (string * string)) (k : string) :
  AnyConfig.dict_get (map (fun kv => (fst kv, AnyConfig.PathText (snd kv))) m)
    k (AnyConfig.PathText "")
  = AnyConfig.PathText (dict_get m k "").
Proof.
  induction m as [|[k' v] m IH]; [reflexivity|].
  cbn [map AnyConfig.dict_get dict_get fst snd].
  now destruct (String.eqb k k').
Qed.

Lemma any_py_or_text (a label : string) :
  AnyConfig.py_or (AnyConfig.PathText a) label
  = AnyConfig.PathText (py_or a label).
Proof. now destruct a. Qed.

Lemma any_answer_lift (cf : config_file) (v : Classifier.triple) :
  AnyConfig.answer (AnyConfig.load_emulator_paths (AnyConfig.of_config_file cf)) v
  = AnyConfig.of_result (Ok (resolved (load_emulator_paths cf) v)).
Proof.
  unfold resolved, AnyConfig.of_result. cbn [fst snd].
  destruct cf as [|[m|]]; cbn [AnyConfig.of_config_file
                                 AnyConfig.load_emulator_paths
                                 load_emulator_paths];
    rewrite any_answer_dict.
  - reflexivity.
  - now rewrite any_dict_get_lift, any_py_or_text.
  - reflexivity.
Qed.

(** on the documents of the interface the two models of the classifier
    agree *)
Lemma any_detect_agrees (cf : config_file) (p : string) :
  AnyConfig.detect_console_type (AnyConfig.of_config_file cf) p
  = AnyConfig.of_result (detect_console_type cf p).
Proof.
  unfold AnyConfig.detect_console_type. cbv zeta.
  rewrite any_scan_table, detect_by_entry. cbv zeta.
  unfold table_entry.
  destruct (find (fun kv => String.eqb (PurePath.suffix (lower p)) (fst kv))
              console_patterns) as [[x [v|sub]]|]; cbn [option_map snd].
  - apply any_answer_lift.
  - rewrite scan_keys_described.
    destruct (find _ sub) as [[k v]|]; cbn [option_map snd].
    + apply any_answer_lift.
    + destruct sub as [|[k v] sub]; [reflexivity | apply any_answer_lift].
  - reflexivity.
Qed.

(** a path whose extension is not in the table gets the fallback,
    whatever [config.json] holds *)
Lemma any_detect_fallback (cj : AnyConfig.config_json) (p : string) :
  table_entry (PurePath.suffix (lower p)) = None ->
  AnyConfig.detect_console_type cj p
  = Ok ("PC", AnyConfig.PathText "Unknown", "Unknown").
Proof.
  intros E. destruct (any_detect_selects p) as [[_ H] | [H _]];
    [apply H | congruence].
Qed.

Lemma any_detect_fallback_witness :
  AnyConfig.detect_console_type
    (AnyConfig.JsonObject (Some AnyConfig.PathsOther)) "/saves/notes.xyz"
  = Ok ("PC", AnyConfig.PathText "Unknown", "Unknown").
Proof. apply any_detect_fallback. reflexivity. Defined.

(** when [emulator_paths] is a dictionary, or the document has none, the
    classifier returns one triple, with a console type that is not empty *)
Lemma any_detect_returns (cj : AnyConfig.config_json) (p : string) :
  AnyConfig.load_emulator_paths cj <> AnyConfig.PathsOther ->
  exists t, AnyConfig.detect_console_type cj p = Ok t /\ fst (fst t) <> "".
Proof.
  intros Hd.
  destruct (any_detect_selects p) as [[_ H] | [_ (v & Hin & H)]].
  - rewrite H. eexists. split; [reflexivity | discriminate].
  - rewrite H.
    destruct (AnyConfig.load_emulator_paths cj) as [d|]; [|congruence].
    rewrite any_answer_dict. eexists. split; [reflexivity|]. cbn [fst].
    clear H. revert v Hin. apply Forall_forall.
    unfold table_triples. cbn.
    repeat (apply Forall_cons; [discriminate|]). apply Forall_nil.
Qed.

Lemma any_detect_returns_witness :
  exists t,
    AnyConfig.detect_console_type
      (AnyConfig.JsonObject
         (Some (AnyConfig.PathsDict [("ePSXe", AnyConfig.PathOther true)])))
      "/saves/Crash.mcr" = Ok t
    /\ fst (fst t) <> "".
Proof. apply any_detect_returns. discriminate. Defined.

(** when [emulator_paths] is not a dictionary, every path whose extension
    is in the table makes the classifier raise *)
Lemma any_detect_raises (p : string) :
  table_entry (PurePath.suffix (lower p)) <> None ->
  AnyConfig.detect_console_type
    (AnyConfig.JsonObject (Some AnyConfig.PathsOther)) p
  = Raise AttributeError.
Proof.
  intros E. destruct (any_detect_selects p) as [[H _] | [_ (v & _ & H)]];
    [congruence|].
  now rewrite H.
Qed.

Lemma any_detect_raises_witness :
  AnyConfig.detect_console_type
    (AnyConfig.JsonObject (Some AnyConfig.PathsOther)) "/roms/Zelda.sav"
  = Raise AttributeError.
Proof. apply any_detect_raises. discriminate. Defined.

(** C5.  The classifier can raise: with a [config.json] that parses and
    whose [emulator_paths] is not a dictionary (null, say), the path
    /saves/Crash.mcr, whose extension is in the table, makes line 99 raise
    AttributeError outside the [try] block, where the same path gets its
    triple when [config.json] cannot be read at all. *)
Theorem untyped_emulator_paths_raise :
  AnyConfig.detect_console_type
    (AnyConfig.JsonObject (Some AnyConfig.PathsOther)) "/saves/Crash.mcr"
  = Raise AttributeError
  /\ AnyConfig.detect_console_type AnyConfig.JsonUnusable "/saves/Crash.mcr"
     = Ok ("PS1", AnyConfig.PathText "ePSXe", "Original")
  /\ detect_console_type ConfigUnusable "/saves/Crash.mcr"
     = Ok ("PS1", "ePSXe", "Original").
Proof. repeat split; reflexivity. Qed.



(** the classifier answers the fallback or a resolved triple of the table *)
Lemma detect_from_table (cf : config_file) (p : string) (t : triple) :
  detect_console_type cf p = Ok t ->
  t = ("PC", "Unknown", "Unknown")
  \/ exists v, In v table_triples /\ t = resolved (load_emulator_paths cf) v.
Proof.
  rewrite detect_by_entry. cbv zeta.
  destruct (table_entry (PurePath.suffix (lower p))) as [[v|sub]|] eqn:E.
  - intros [= <-]. right. exists v. split; [|reflexivity].
    exact (table_entry_triples _ _ E).
  - pose proof (table_entry_triples _ _ E) as Hsub. cbn in Hsub.
    destruct (scan_keys _ _ sub) as [t'|] eqn:Ek.
    + intros [= <-].
      apply scan_keys_found in Ek as (k & v & Hin & _ & ->).
      right. exists v. split; [|reflexivity]. exact (Hsub (k, v) Hin).
    + destruct sub as [|[k v] sub]; [discriminate|].
      intros [= <-]. right. exists v. split; [|reflexivity].
      apply (Hsub (k, v)). now left.
  - intros [= <-]. now left.
Qed.

Lemma py_or_not_empty (a b : string) : b <> "" -> py_or a b <> "".
Proof. destruct a; [trivial | discriminate]. Qed.

(** X6. The emulator field of a classification is never empty: it is a
    configured path that is not empty, a label of the table, or
    "Unknown". *)
Theorem emulator_field_not_empty :
  forall (cf : config_file) (p c e h : string),
    detect_console_type cf p = Ok (c, e, h) -> e <> "".
Proof.
  intros cf p c e h H.
  apply detect_from_table in H as [[= -> -> ->] | (v & Hin & H)];
    [discriminate|].
  assert (Hl : snd (fst v) <> "").
  { clear H. revert v Hin. apply Forall_forall.
    unfold table_triples. cbn.
    repeat (apply Forall_cons; [discriminate|]). apply Forall_nil. }
  unfold resolved in H. injection H as _ -> _.
  now apply py_or_not_empty.
Qed.

Lemma emulator_field_not_empty_witness : "/opt/fceux" <> "".
Proof.
  apply (emulator_field_not_empty (ConfigDoc (Some [("FCEUX", "/opt/fceux")]))
           "/roms/nes/Contra.sav" "NES" "/opt/fceux" "Original").
  reflexivity.
Defined.

(** X7. Every console type that the classifier can answer is one of the
    systems that the default configuration of the manager switches on,
    and every hardware type is "Original", "Color", "Advance" or
    "Unknown". *)
Theorem console_type_is_default_system :
  forall (cf : config_file) (p c e h : string),
    detect_console_type cf p = Ok (c, e, h) ->
    In c (Manager.console_types Manager.default_config)
    /\ In h ["Original"; "Color"; "Advance"; "Unknown"]%list.
Proof.
  intros cf p c e h H.
  apply detect_from_table in H as [[= -> -> ->] | (v & Hin & H)].
  - split; [|cbn; tauto].
    apply mem_In. reflexivity.
  - assert (Hv : In (fst (fst v))
                   (Manager.console_types Manager.default_config)
                 /\ In (snd v) ["Original"; "Color"; "Advance"; "Unknown"]%list).
    { clear H. revert v Hin. apply Forall_forall.
      unfold table_triples. cbn [flat_map console_patterns snd map app fst].
      repeat (apply Forall_cons;
              [split; [apply mem_In; reflexivity | cbn; tauto]|]).
      apply Forall_nil. }
    unfold resolved in H. injection H as -> _ ->. exact Hv.
Qed.

Lemma console_type_is_default_system_witness :
  In "Dreamcast" (Manager.console_types Manager.default_config)
  /\ In "Original" ["Original"; "Color"; "Advance"; "Unknown"]%list.
Proof.
  apply (console_type_is_default_system ConfigUnusable "/saves/Shenmue.vms"
           "Dreamcast" "NullDC" "Original").
  reflexivity.
Defined.

Lemma dict_get_in (m : list (string * string)) (k : string) :
  In k (map fst m) -> In (dict_get m k "") (map snd m).
Proof.
  induction m as [|[k' v] m IH]; [contradiction|].
  cbn [map fst snd dict_get In].
  destruct (String.eqb_spec k k') as [->|Hne]; [now left|].
  intros [H | H]; [congruence | right; now apply IH].
Qed.

(** X8. The default configuration has an entry for the emulator name that
    the classifier looks up for any table triple: once every emulator of
    such a configuration has a path that is not empty, the emulator field
    of every path with a table extension is one of the configured paths. *)
Theorem configured_emulators_cover_table :
  forall (m : list (string * string)) (p c e h : string),
    map fst m = map fst (Manager.emulator_paths Manager.default_config) ->
    Forall (fun kv => snd kv <> "") m ->
    table_entry (PurePath.suffix (lower p)) <> None ->
    detect_console_type (ConfigDoc (Some m)) p = Ok (c, e, h) ->
    In e (map snd m).
Proof.
  intros m p c e h Hkeys Hset Hentry H.
  assert (Hin : exists v, In v table_triples
                /\ (c, e, h) = resolved m v).
  { rewrite detect_by_entry in H. cbv zeta in H.
    destruct (table_entry (PurePath.suffix (lower p))) as [[v|sub]|] eqn:E;
      [| |congruence].
    - injection H as <- <- <-. exists v. split; [|reflexivity].
      exact (table_entry_triples _ _ E).
    - pose proof (table_entry_triples _ _ E) as Hsub. cbn in Hsub.
      cbn [load_emulator_paths] in H.
      destruct (scan_keys _ _ sub) as [t'|] eqn:Ek.
      + injection H as ->.
        apply scan_keys_found in Ek as (k & v & Hv & _ & ->).
        exists v. split; [exact (Hsub (k, v) Hv) | reflexivity].
      + destruct sub as [|[k v] sub]; [discriminate|].
        injection H as <- <- <-. exists v. split; [|reflexivity].
        apply (Hsub (k, v)). now left. }
  destruct Hin as (v & Hv & Hr).
  assert (Hname : In (first_name (snd (fst v))) (map fst m)).
  { rewrite Hkeys. clear Hr. revert v Hv. apply Forall_forall.
    unfold table_triples. cbn [flat_map console_patterns snd map app fst].
    repeat (apply Forall_cons; [apply mem_In; reflexivity|]).
    apply Forall_nil. }
  unfold resolved in Hr. injection Hr as _ -> _.
  pose proof (dict_get_in m _ Hname) as Hget.
  destruct (dict_get m (first_name (snd (fst v))) "") as [|a s] eqn:Eg.
  - exfalso. apply in_map_iff in Hget as ([k' v'] & Hv' & Hin').
    rewrite Forall_forall in Hset. apply (Hset _ Hin'). exact Hv'.
  - exact Hget.
Qed.

Lemma configured_emulators_cover_table_witness :
  In "/opt/Dolphin"
     (map snd (map (fun kv : string * string => (fst kv, "/opt/" ++ fst kv))
                 (Manager.emulator_paths Manager.default_config))).
Proof.
  apply (configured_emulators_cover_table
           (map (fun kv : string * string => (fst kv, "/opt/" ++ fst kv))
              (Manager.emulator_paths Manager.default_config))
           "/saves/Zelda.gci" "GameCube" "/opt/Dolphin" "Original").
  - reflexivity.
  - cbn. repeat (apply Forall_cons; [discriminate|]). apply Forall_nil.
  - discriminate.
  - reflexivity.
Defined.

(** ** The configuration loader of the manager *)

(** X9. [load_config] is idempotent: called again (with the file still
    creatable or still not) it returns the same configuration and leaves
    [config.json] as the first call left it; a file that exists is never
    rewritten. *)
Theorem load_config_idempotent :
  forall (disk : Manager.config_disk) (writable : bool),
    Manager.load_config (snd (Manager.load_config disk writable)) writable
    = Manager.load_config disk writable
    /\ (disk <> Manager.DiskAbsent ->
        snd (Manager.load_config disk writable) = disk).
Proof.
  intros [| |c] [|]; split; try reflexivity; congruence.
Qed.

Lemma load_config_idempotent_witness :
  snd (Manager.load_config Manager.DiskUnusable true) = Manager.DiskUnusable.
Proof.
  apply (proj2 (load_config_idempotent Manager.DiskUnusable true)).
  discriminate.
Defined.

(** ** The game name *)

Lemma chars_lstrip (P : ascii -> Prop) (s : string) :
  Forall P (chars s) -> Forall P (chars (lstrip s)).
Proof.
  induction s as [|c s IH]; [trivial|].
  cbn [lstrip]. intros H. destruct (is_space c); [|exact H].
  apply IH. now inversion H.
Qed.

Lemma chars_rstrip (P : ascii -> Prop) (s : string) :
  Forall P (chars s) -> Forall P (chars (rstrip s)).
Proof.
  induction s as [|c s IH]; [trivial|].
  cbn [rstrip]. intros H. inversion H as [|? ? Hc Hs]; subst.
  specialize (IH Hs).
  destruct (rstrip s) as [|d r].
  - destruct (is_space c); repeat constructor. exact Hc.
  - now constructor.
Qed.

Lemma chars_space_each (s : string) :
  Forall (fun c => Re.is_sep c = false) (chars (space_each s)).
Proof.
  induction s as [|c s IH]; [constructor|].
  cbn [space_each chars list_ascii_of_string]. constructor; [|exact IH].
  destruct (Re.is_sep c) eqn:E; [reflexivity | exact E].
Qed.

(** X10. A game name holds none of the characters [.], [_] and [-]. *)
Theorem game_name_has_no_separator :
  forall file : string,
    Forall (fun c => Re.is_sep c = false) (chars (clean_game_name file)).
Proof.
  intros file. rewrite clean_game_name_described.
  apply chars_rstrip, chars_lstrip, chars_space_each.
Qed.

Lemma lstrip_headed (s : string) :
  match lstrip s with
  | EmptyString => True
  | String c _ => is_space c = false
  end.
Proof.
  induction s as [|c s IH]; [exact I|].
  cbn [lstrip]. destruct (is_space c) eqn:E; [exact IH | exact E].
Qed.

Lemma rstrip_headed (s : string) :
  match s with EmptyString => True | String c _ => is_space c = false end ->
  lstrip (rstrip s) = rstrip s.
Proof.
  destruct s as [|c s]; [reflexivity|]. intros Hc.
  cbn [rstrip]. destruct (rstrip s) as [|d r].
  - rewrite Hc. cbn [lstrip]. now rewrite Hc.
  - cbn [lstrip]. now rewrite Hc.
Qed.

Lemma rstrip_idem (s : string) : rstrip (rstrip s) = rstrip s.
Proof.
  induction s as [|c s IH]; [reflexivity|].
  cbn [rstrip]. destruct (rstrip s) as [|d r] eqn:E.
  - destruct (is_space c) eqn:Ec; [reflexivity|].
    cbn [rstrip]. now rewrite Ec.
  - change (rstrip (String c (String d r)))
      with (match rstrip (String d r) with
            | EmptyString => if is_space c then "" else String c ""
            | String a b => String c (String a b)
            end).
    now rewrite IH.
Qed.

Lemma strip_idem (s : string) : strip (strip s) = strip s.
Proof.
  unfold strip.
  rewrite (rstrip_headed (lstrip s) (lstrip_headed s)).
  apply rstrip_idem.
Qed.

(** X11. A game name is trimmed: stripping it again changes nothing, so it
    neither starts nor ends with white space. *)
Theorem game_name_is_trimmed :
  forall file : string,
    strip (clean_game_name file) = clean_game_name file
    /\ lstrip (clean_game_name file) = clean_game_name file
    /\ rstrip (clean_game_name file) = clean_game_name file.
Proof.
  intros file. unfold clean_game_name.
  set (s := Re.sub Re.separator " " _).
  split; [apply strip_idem|]. unfold strip. split.
  - apply rstrip_headed, lstrip_headed.
  - apply rstrip_idem.
Qed.

Lemma no_closer_has_closer (s : string) :
  Forall (fun c => Re.is_close c = false) (chars s) -> has_closer s = false.
Proof.
  induction s as [|c s IH]; [reflexivity|].
  cbn [chars list_ascii_of_string has_closer]. intros H.
  inversion H as [|? ? Hc Hs]; subst. rewrite Hc.
  destruct (Re.is_newline c); [reflexivity | now apply IH].
Qed.

(** X12. Only a run that is both opened and closed is removed: a name
    without a closing bracket or parenthesis, or without an opening one,
    goes through the first substitution unchanged. *)
Theorem unbalanced_brackets_are_kept :
  forall s : string,
    Forall (fun c => Re.is_close c = false) (chars s)
    \/ Forall (fun c => Re.is_open c = false) (chars s) ->
    Re.sub Re.bracketed "" s = s.
Proof.
  intros s H. rewrite sub_bracketed.
  induction s as [|c s IH]; [reflexivity|].
  cbn [drop_runs].
  assert (E : Re.is_open c && has_closer s = false).
  { destruct H as [H | H]; cbn [chars list_ascii_of_string] in H;
      inversion H as [|? ? Hc Hs]; subst.
    - rewrite (no_closer_has_closer s Hs). apply andb_false_r.
    - now rewrite Hc. }
  rewrite E. f_equal. apply IH.
  destruct H as [H | H]; [left | right];
    cbn [chars list_ascii_of_string] in H; now inversion H.
Qed.

Lemma unbalanced_brackets_are_kept_witness :
  Re.sub Re.bracketed "" "Zelda (USA" = "Zelda (USA".
Proof.
  apply (unbalanced_brackets_are_kept "Zelda (USA").
  left. cbn. repeat (apply Forall_cons; [reflexivity|]). apply Forall_nil.
Defined.

(** ** The scanner *)

Lemma record_of_classified (cf : config_file) (root f t : string) :
  detect_console_type cf (PurePath.join root f)
  = Ok (console_type (record_of cf root f t),
        emulator (record_of cf root f t),
        hardware_type (record_of cf root f t))
  /\ console_type (record_of cf root f t) <> "".
Proof.
  unfold record_of, triple_of. cbn [console_type emulator hardware_type].
  destruct (detect_returns cf (PurePath.join root f)) as ([[c e] h] & -> & Hc).
  now split.
Qed.

(** X13. Every record of a scan carries what the classifier answers for
    its own [save_path]; in particular its console type is not empty. *)
Theorem records_agree_with_classifier :
  forall ign cf directory fs recs r,
    scan_directory ign cf directory fs = Ok recs ->
    In r recs ->
    detect_console_type cf (save_path r)
    = Ok (console_type r, emulator r, hardware_type r)
    /\ console_type r <> "".
Proof.
  intros ign cf directory fs recs r Hs Hr.
  apply scan_directory_records in Hs. subst recs.
  apply in_all_records in Hr as (root & dn & fl & f & t & _ & _ & _ & ->).
  apply record_of_classified.
Qed.

Lemma records_agree_with_classifier_witness :
  detect_console_type ConfigUnusable "/r/sub/Tekken.mcr"
  = Ok ("PS1", "ePSXe", "Original")
  /\ "PS1" <> "".
Proof.
  apply (records_agree_with_classifier IgnoreAbsent ConfigUnusable "/r"
           (Dir "r" [ Dir "sub" [ File "Tekken.mcr" (Some "2024-05-01 10:00:00") ] ])
           [ mk_save_info "PS1" "Tekken" "/r/sub/Tekken.mcr"
               "2024-05-01 10:00:00" "ePSXe" "Original" ]%list
           (mk_save_info "PS1" "Tekken" "/r/sub/Tekken.mcr"
              "2024-05-01 10:00:00" "ePSXe" "Original")).
  - reflexivity.
  - left; reflexivity.
Defined.

Lemma records_of_unmatched igf cf root files :
  (forall f mt, In (f, mt) files -> matched igf f = false) ->
  records_of igf cf root files = []%list.
Proof.
  induction files as [|[f mt] files IH]; intros H; [reflexivity|].
  cbn [records_of flat_map fst snd].
  rewrite (H f mt) by now left. cbn [app].
  apply IH. intros g m Hg. apply (H g m). now right.
Qed.

(** X14. A tree in which no visited directory lists a matched file gives
    the empty list of records and no error, whether or not its files can
    be stat'ed: an empty directory, or one with files that are all ignored
    or of other extensions. *)
Theorem nothing_matched_gives_no_records :
  forall ign cf directory fs,
    (forall root dn fl f mt,
        In (root, dn, fl) (visited ign directory fs) ->
        In (f, mt) fl ->
        matched (snd (load_ignore_list ign)) f = false) ->
    scan_directory ign cf directory fs = Ok []%list.
Proof.
  intros ign cf directory fs H.
  rewrite scan_directory_ok.
  - f_equal. unfold all_records.
    induction (visited ign directory fs) as [|[[root dn] fl] items IH];
      [reflexivity|].
    cbn [flat_map fst snd].
    rewrite records_of_unmatched.
    + apply IH. intros r d l f mt Hin. apply (H r d l f mt). now right.
    + intros f mt Hf. apply (H root dn fl f mt); [now left | assumption].
  - apply no_stat_failure. intros root dn fl f Hin Hf.
    exact (H root dn fl f None Hin Hf).
Qed.

Lemma nothing_matched_gives_no_records_witness :
  scan_directory (IgnoreDoc None (Some ["old.sav"]%list)) ConfigUnusable "/r"
    (Dir "r" [ File "readme.txt" None; File "old.sav" None; Dir "empty" [] ])
  = Ok []%list.
Proof.
  apply (nothing_matched_gives_no_records
           (IgnoreDoc None (Some ["old.sav"]%list)) ConfigUnusable "/r"
           (Dir "r" [ File "readme.txt" None; File "old.sav" None;
                      Dir "empty" [] ])).
  intros root dn fl f mt Hin Hf.
  destruct Hin as [[= <- <- <-] | [[= <- <- <-] | []]].
  - destruct Hf as [[= <- <-] | [[= <- <-] | []]]; reflexivity.
  - destruct Hf.
Defined.

Lemma all_records_app igf cf items1 items2 :
  all_records igf cf (items1 ++ items2)
  = (all_records igf cf items1 ++ all_records igf cf items2)%list.
Proof. unfold all_records. apply flat_map_app. Qed.

Lemma walk_fails_app igf items1 items2 :
  walk_fails igf (items1 ++ items2)
  = walk_fails igf items1 || walk_fails igf items2.
Proof. unfold walk_fails. apply existsb_app. Qed.

Lemma all_records_cons igf cf (it : walk_item) items :
  all_records igf cf (it :: items)
  = (records_of igf cf (fst (fst it)) (snd it) ++ all_records igf cf items)%list.
Proof. reflexivity. Qed.

Lemma walk_fails_cons igf (it : walk_item) items :
  walk_fails igf (it :: items)
  = stat_fails igf (snd it) || walk_fails igf items.
Proof. reflexivity. Qed.

Lemma scan_ok_no_failure ign cf directory fs recs :
  scan_directory ign cf directory fs = Ok recs ->
  stat_failure ign directory fs = false.
Proof.
  intros H. destruct (stat_failure ign directory fs) eqn:E; [|reflexivity].
  destruct (scan_directory_raise ign cf directory fs E)
    as (r & d & l & f & _ & _ & _ & Hr). congruence.
Qed.

(** X15. A scan is built from the scans of the subdirectories.  When the
    scan of a directory succeeds, its records are the records of the
    directory's own matched files followed, in the order of the listing
    and for each entry that is a directory in its own right (not a link,
    and one that can be listed) with a name that is not ignored, by the
    records that the scan of that subdirectory returns; each of these
    scans succeeds.  The other entries contribute nothing. *)
Theorem scan_of_directory_composes :
  forall ign cf directory nm es recs,
    scan_directory ign cf directory (Dir nm es) = Ok recs ->
    recs
    = (records_of (snd (load_ignore_list ign)) cf directory (file_entries es)
       ++ flat_map
            (fun c =>
               match c with
               | Dir d sub =>
                   if mem d (fst (load_ignore_list ign)) then []
                   else records (scan_directory ign cf
                                   (PurePath.join directory d) (Dir d sub))
               | _ => []
               end) es)%list
    /\ forall d sub,
         In (Dir d sub) es ->
         ~ In d (fst (load_ignore_list ign)) ->
         exists rc,
           scan_directory ign cf (PurePath.join directory d) (Dir d sub)
           = Ok rc.
Proof.
  intros ign cf directory nm es recs Hs.
  pose proof (scan_ok_no_failure _ _ _ _ _ Hs) as Hok.
  apply scan_directory_records in Hs. subst recs.
  unfold stat_failure, visited in Hok. unfold visited.
  cbn [os_walk] in Hok |- *.
  set (igf := snd (load_ignore_list ign)) in *.
  rewrite walk_fails_cons in Hok.
  apply orb_false_iff in Hok as [_ Hok].
  assert (Hsub : forall c,
             In c es ->
             is_dir c && negb (mem (node_name c) (fst (load_ignore_list ign)))
             = true ->
             stat_failure ign (PurePath.join directory (node_name c)) c = false).
  { intros c Hc Hk. unfold stat_failure, visited. fold igf.
    destruct (walk_fails igf (os_walk _ _ c)) eqn:E; [|reflexivity].
    exfalso. revert Hok. clear - Hc Hk E.
    induction es as [|c0 es IH]; [contradiction|].
    cbn [flat_map]. rewrite walk_fails_app.
    destruct Hc as [-> | Hc].
    - rewrite Hk, E. discriminate.
    - intros H. apply orb_false_iff in H as [_ H]. now apply IH. }
  split.
  - rewrite all_records_cons. cbn [fst snd]. f_equal.
    clear Hok. induction es as [|c es IH]; [reflexivity|].
    cbn [flat_map]. rewrite all_records_app. f_equal.
    + destruct c as [f mt | d sub | d]; cbn [is_dir node_name andb].
      * reflexivity.
      * destruct (mem d (fst (load_ignore_list ign))) eqn:Ek;
          [reflexivity|]. cbn [negb].
        rewrite scan_directory_ok; [reflexivity|].
        apply (Hsub (Dir d sub)); [now left|].
        cbn [is_dir node_name andb]. now rewrite Ek.
      * now destruct (negb (mem d (fst (load_ignore_list ign)))).
    + apply IH. intros c' Hc'. apply Hsub. now right.
  - intros d sub Hc Hn. eexists.
    apply scan_directory_ok, (Hsub (Dir d sub)); [assumption|].
    cbn [is_dir node_name andb]. apply mem_not_In in Hn. now rewrite Hn.
Qed.

Lemma scan_of_directory_composes_witness :
  exists rc,
    scan_directory (IgnoreDoc (Some ["tmp"]%list) None) ConfigUnusable
      (PurePath.join "/r" "ps1")
      (Dir "ps1" [ File "Tekken.mcr" (Some "2024-05-01 10:00:00") ]) = Ok rc.
Proof.
  apply (proj2 (scan_of_directory_composes
                  (IgnoreDoc (Some ["tmp"]%list) None) ConfigUnusable "/r" "r"
                  [ File "top.dsv" (Some "2024-05-03 12:00:00");
                    Unlistable "link";
                    Dir "ps1" [ File "Tekken.mcr" (Some "2024-05-01 10:00:00") ] ]
                  [ mk_save_info "DS" "top" "/r/top.dsv"
                      "2024-05-03 12:00:00" "DeSmuME" "Original";
                    mk_save_info "PS1" "Tekken" "/r/ps1/Tekken.mcr"
                      "2024-05-01 10:00:00" "ePSXe" "Original" ]%list
                  eq_refl)
           "ps1" [ File "Tekken.mcr" (Some "2024-05-01 10:00:00") ]).
  - right; right; left; reflexivity.
  - intros [H | []]. discriminate H.
Defined.

Lemma map_over_flat_map {A B C : Type} (f : B -> C) (g : A -> list B)
      (l : list A) :
  map f (flat_map g l) = flat_map (fun x => map f (g x)) l.
Proof.
  induction l as [|x l IH]; [reflexivity|].
  cbn [flat_map]. now rewrite map_app, IH.
Qed.

Lemma save_paths_of_records igf cf root files :
  map save_path (records_of igf cf root files)
  = map (PurePath.join root) (kept_files igf files).
Proof.
  unfold records_of, kept_files.
  induction files as [|[f mt] files IH]; [reflexivity|].
  cbn [flat_map fst snd]. rewrite !map_app, IH. f_equal.
  destruct (matched igf f); [|reflexivity]. now destruct mt.
Qed.

(** the save paths of a walk are the addresses of the matched files, read
    from the root *)
Lemma save_paths_are_addresses igf cf keep (n : node) :
  forall top,
    map save_path (all_records igf cf (os_walk keep top n))
    = map (path_below top) (addresses igf keep n).
Proof.
  induction n as [nm mt | nm es IH | nm] using node_induction;
    intros top; try reflexivity.
  cbn [os_walk addresses]. rewrite all_records_cons. cbn [fst snd].
  rewrite !map_app, save_paths_of_records, map_map. f_equal.
  induction IH as [|c es Hc _ IHes]; [reflexivity|].
  cbn [flat_map]. rewrite all_records_app, !map_app, IHes. f_equal.
  destruct (is_dir c && keep (node_name c)); [|reflexivity].
  rewrite Hc, map_map. reflexivity.
Qed.

Lemma in_kept_files igf files f :
  In f (kept_files igf files) ->
  exists t, In (f, Some t) files /\ matched igf f = true.
Proof.
  unfold kept_files. intros H.
  apply in_flat_map in H as ([g mt] & Hin & Hg). cbn [fst snd] in Hg.
  destruct (matched igf g) eqn:Em; [|contradiction].
  destruct mt as [t|]; [|contradiction].
  destruct Hg as [<- | []]. now exists t.
Qed.

Lemma addresses_valid igf keep (n : node) :
  names_ok n = true ->
  Forall (fun a => a <> []%list /\ Forall (fun d => valid_name d = true) a)
         (addresses igf keep n).
Proof.
  induction n as [nm mt | nm es IH | nm] using node_induction;
    intros Hok; try constructor.
  cbn [addresses names_ok] in *. rewrite forallb_forall in Hok.
  apply Forall_app. split.
  - apply Forall_forall. intros a Ha.
    apply in_map_iff in Ha as (f & <- & Hf).
    apply in_kept_files in Hf as (t & Hin & _).
    apply in_file_entries in Hin. specialize (Hok _ Hin).
    apply andb_true_iff in Hok as [Hv _]. cbn in Hv.
    split; [discriminate | now repeat constructor].
  - apply Forall_forall. intros a Ha.
    apply in_flat_map in Ha as (c & Hc & Ha).
    destruct (is_dir c && keep (node_name c)); [|contradiction].
    apply in_map_iff in Ha as (a' & <- & Ha').
    specialize (Hok _ Hc). apply andb_true_iff in Hok as [Hv Hsub].
    rewrite Forall_forall in IH.
    pose proof (IH c Hc Hsub) as Hall. rewrite Forall_forall in Hall.
    destruct (Hall a' Ha') as [_ Hval].
    split; [discriminate | now constructor].
Qed.

(** X16. In a tree whose entries have proper names every record of a
    scan is the record of a file [f], listed with a modification time in
    a directory that the walk reaches from the root through the
    subdirectories named [ds], and its [save_path] is the root path, a
    slash unless the root path is empty or ends with one, and the names
    [ds] followed by [f], joined by slashes. *)
Theorem save_paths_lie_below_root :
  forall ign cf directory fs recs r,
    names_ok fs = true ->
    scan_directory ign cf directory fs = Ok recs ->
    In r recs ->
    exists ds es f t,
      visits (fun d => negb (mem d (fst (load_ignore_list ign)))) fs ds es
      /\ In (File f (Some t)) es
      /\ r = record_of cf (path_below directory ds) f t
      /\ save_path r
         = directory ++ separator_after directory
           ++ String.concat "/" (ds ++ [f]).
Proof.
  intros ign cf directory fs recs r Hok Hs Hr.
  apply scan_directory_records in Hs. subst recs.
  apply in_all_records in Hr as (root & dn & fl & f & t & Hin & Hf & _ & ->).
  unfold visited in Hin.
  apply os_walk_visits in Hin as (ds & es & Hv & -> & _ & ->).
  destruct (visits_names _ _ _ _ Hv Hok) as [Hds Hes].
  apply in_file_entries in Hf.
  pose proof (Hes _ Hf) as Hname. cbn in Hname.
  exists ds, es, f, t. repeat split; try assumption.
  cbn [record_of save_path].
  rewrite path_below_snoc. apply path_below_valid.
  - apply Forall_app. split; [assumption | now constructor].
  - now destruct ds.
Qed.

Lemma save_paths_lie_below_root_witness :
  exists ds es f t,
    visits (fun d => negb (mem d (fst (load_ignore_list IgnoreAbsent))))
      (Dir "r" [ Dir "sub" [ File "Tekken.mcr" (Some "2024-05-01 10:00:00") ] ])
      ds es
    /\ In (File f (Some t)) es
    /\ mk_save_info "PS1" "Tekken" "/r/sub/Tekken.mcr"
         "2024-05-01 10:00:00" "ePSXe" "Original"
       = record_of ConfigUnusable (path_below "/r" ds) f t
    /\ save_path (mk_save_info "PS1" "Tekken" "/r/sub/Tekken.mcr"
                    "2024-05-01 10:00:00" "ePSXe" "Original")
       = "/r" ++ separator_after "/r" ++ String.concat "/" (ds ++ [f]).
Proof.
  apply (save_paths_lie_below_root IgnoreAbsent ConfigUnusable "/r"
           (Dir "r" [ Dir "sub" [ File "Tekken.mcr" (Some "2024-05-01 10:00:00") ] ])
           [ mk_save_info "PS1" "Tekken" "/r/sub/Tekken.mcr"
               "2024-05-01 10:00:00" "ePSXe" "Original" ]%list
           (mk_save_info "PS1" "Tekken" "/r/sub/Tekken.mcr"
              "2024-05-01 10:00:00" "ePSXe" "Original")).
  - reflexivity.
  - reflexivity.
  - left; reflexivity.
Defined.

Lemma unique_names_dir (nm : string) (es : list node) :
  unique_names (Dir nm es)
  <-> NoDup (map node_name es) /\ Forall unique_names es.
Proof.
  cbn [unique_names]. apply and_iff_compat_l.
  induction es as [|c es IH]; [split; [constructor | trivial]|].
  rewrite IH. split.
  - intros [Hc Hes]. now constructor.
  - intros H. inversion H; subst. now split.
Qed.

Lemma NoDup_flat_map_keyed {A B K : Type} (key : A -> K) (kb : B -> K)
      (g : A -> list B) (l : list A) :
  NoDup (map key l) ->
  (forall a, In a l -> NoDup (g a)) ->
  (forall a b, In a l -> In b (g a) -> kb b = key a) ->
  NoDup (flat_map g l).
Proof.
  induction l as [|a l IH]; intros Hk Hg Hb; [constructor|].
  cbn [map flat_map] in *. inversion Hk as [|? ? Hna Hl]; subst.
  apply NoDup_app.
  - apply Hg. now left.
  - apply IH; [assumption | |]; intros; [apply Hg | eapply Hb]; eauto;
      now right.
  - intros b Hb1 Hb2. apply Hna.
    apply in_flat_map in Hb2 as (a' & Ha' & Hb').
    rewrite <- (Hb a b (or_introl eq_refl) Hb1).
    rewrite (Hb a' b (or_intror Ha') Hb').
    now apply in_map.
Qed.

Lemma NoDup_map_cons {A : Type} (x : A) (l : list (list A)) :
  NoDup l -> NoDup (map (cons x) l).
Proof.
  intros H. apply NoDup_map_NoDup_ForallPairs; [|assumption].
  intros a b _ _ E. now injection E.
Qed.

Lemma addresses_NoDup igf keep (n : node) :
  unique_names n -> NoDup (addresses igf keep n).
Proof.
  induction n as [nm mt | nm es IH | nm] using node_induction;
    intros Hu; try constructor.
  apply unique_names_dir in Hu as [Hnd Hall].
  set (contribution :=
         fun c : node =>
           match c with
           | File f (Some _) => if matched igf f then [[f]]%list else []%list
           | File _ None => []%list
           | _ => if is_dir c && keep (node_name c)
                  then map (cons (node_name c)) (addresses igf keep c)
                  else []%list
           end).
  assert (Hfiles : forall l,
             map (fun f => [f]%list) (kept_files igf (file_entries l))
             = flat_map (fun c => if is_dir c then []%list else contribution c) l).
  { induction l as [|c l IHl]; [reflexivity|].
    destruct c as [f mt | d sub | d]; cbn [file_entries flat_map is_dir app];
      try exact IHl.
    unfold kept_files in *. cbn [flat_map fst snd]. rewrite map_app, IHl.
    f_equal. unfold contribution.
    destruct mt; destruct (matched igf f); reflexivity. }
  assert (Hdirs : forall l,
             flat_map (fun c => if is_dir c && keep (node_name c)
                                then map (cons (node_name c))
                                         (addresses igf keep c)
                                else []%list) l
             = flat_map (fun c => if is_dir c then contribution c else []%list) l).
  { induction l as [|c l IHl]; [reflexivity|].
    cbn [flat_map]. rewrite IHl. f_equal.
    destruct c as [f mt | d sub | d]; reflexivity. }
  assert (Hkey : forall c a, In c es -> In a (contribution c) ->
                             hd "" a = node_name c).
  { intros c a Hc Ha. unfold contribution in Ha.
    destruct c as [f [t|] | d sub | d]; cbn [is_dir node_name andb] in *.
    - destruct (matched igf f); [|contradiction].
      destruct Ha as [<- | []]. reflexivity.
    - contradiction.
    - destruct (keep d); [|contradiction].
      apply in_map_iff in Ha as (a' & <- & _). reflexivity.
    - destruct (keep d); [|contradiction].
      apply in_map_iff in Ha as (a' & <- & _). reflexivity. }
  assert (Hnd' : forall c, In c es -> NoDup (contribution c)).
  { intros c Hc. unfold contribution.
    destruct c as [f [t|] | d sub | d]; cbn [is_dir node_name andb].
    - destruct (matched igf f); repeat constructor. intros [].
    - constructor.
    - destruct (keep d); [|constructor].
      apply NoDup_map_cons. rewrite Forall_forall in IH, Hall.
      apply IH; [assumption | now apply Hall].
    - destruct (keep d); constructor. }
  cbn [addresses]. rewrite Hfiles, Hdirs.
  apply NoDup_app.
  - apply (NoDup_flat_map_keyed node_name (hd "")); [assumption | |].
    + intros c Hc. destruct (is_dir c); [constructor | now apply Hnd'].
    + intros c a Hc Ha. destruct (is_dir c); [contradiction | now apply Hkey].
  - apply (NoDup_flat_map_keyed node_name (hd "")); [assumption | |].
    + intros c Hc. destruct (is_dir c); [now apply Hnd' | constructor].
    + intros c a Hc Ha. destruct (is_dir c); [now apply Hkey | contradiction].
  - intros a Ha1 Ha2.
    apply in_flat_map in Ha1 as (c1 & Hc1 & Ha1).
    apply in_flat_map in Ha2 as (c2 & Hc2 & Ha2).
    destruct (is_dir c1) eqn:E1; [contradiction|].
    destruct (is_dir c2) eqn:E2; [|contradiction].
    pose proof (Hkey c1 a Hc1 Ha1) as K1.
    pose proof (Hkey c2 a Hc2 Ha2) as K2.
    assert (c1 <> c2) by (intros ->; congruence).
    clear - Hnd Hc1 Hc2 K1 K2 H.
    rewrite K1 in K2. clear K1.
    induction es as [|c es IHes]; [contradiction|].
    cbn [map] in Hnd. inversion Hnd as [|? ? Hn Hl]; subst.
    destruct Hc1 as [-> | Hc1], Hc2 as [-> | Hc2].
    + congruence.
    + apply Hn. rewrite K2. now apply in_map.
    + apply Hn. rewrite <- K2. now apply in_map.
    + now apply IHes.
Qed.

(** X17. [save_path] is a key of the result: in a tree whose entries have
    proper names, distinct within each directory, no two records of a
    scan have the same [save_path]. *)
Theorem save_paths_are_distinct :
  forall ign cf directory fs recs,
    names_ok fs = true ->
    unique_names fs ->
    scan_directory ign cf directory fs = Ok recs ->
    NoDup (map save_path recs).
Proof.
  intros ign cf directory fs recs Hok Hu Hs.
  apply scan_directory_records in Hs. subst recs.
  unfold visited. rewrite save_paths_are_addresses.
  apply NoDup_map_NoDup_ForallPairs; [|now apply addresses_NoDup].
  pose proof (addresses_valid (snd (load_ignore_list ign))
                (fun d => negb (mem d (fst (load_ignore_list ign)))) fs Hok)
    as Hall.
  rewrite Forall_forall in Hall.
  intros a b Ha Hb E.
  apply (path_below_inj directory); [apply (Hall a Ha) | apply (Hall b Hb) | exact E].
Qed.

Lemma save_paths_are_distinct_witness :
  NoDup (map save_path
           [ mk_save_info "PS1" "a" "/r/a.mcr" "2024-05-01 10:00:00"
               "ePSXe" "Original";
             mk_save_info "PS1" "a" "/r/sub/a.mcr" "2024-05-02 11:00:00"
               "ePSXe" "Original" ]).
Proof.
  apply (save_paths_are_distinct IgnoreAbsent ConfigUnusable "/r"
           (Dir "r" [ File "a.mcr" (Some "2024-05-01 10:00:00");
                      Dir "sub" [ File "a.mcr" (Some "2024-05-02 11:00:00") ] ])).
  - reflexivity.
  - cbn. repeat split; repeat constructor; cbn; intuition discriminate.
  - reflexivity.
Defined.

Lemma lower_char_slash (c : ascii) :
  Ascii.eqb (lower_char c) "/" = Ascii.eqb c "/".
Proof.
  destruct c as [[|] [|] [|] [|] [|] [|] [|] [|]]; vm_compute; reflexivity.
Qed.

Lemma lower_char_dot (c : ascii) :
  Ascii.eqb (lower_char c) "." = Ascii.eqb c ".".
Proof.
  destruct c as [[|] [|] [|] [|] [|] [|] [|] [|]]; vm_compute; reflexivity.
Qed.

Lemma no_slash_lower (s : string) : no_slash (lower s) = no_slash s.
Proof.
  induction s as [|c s IH]; [reflexivity|].
  cbn [lower no_slash]. now rewrite lower_char_slash, IH.
Qed.

Lemma split_no_slash (f : string) :
  no_slash f = true -> split_on "/" f = [f]%list.
Proof.
  induction f as [|c f IH]; [reflexivity|].
  cbn [no_slash split_on]. intros H. apply andb_true_iff in H as [Hc Hf].
  apply negb_true_iff in Hc. rewrite Hc, (IH Hf). reflexivity.
Qed.

Lemma split_app_slash (b t : string) :
  split_on "/" (b ++ String "/" t)
  = (split_on "/" b ++ split_on "/" t)%list.
Proof.
  induction b as [|c b IH]; [reflexivity|].
  cbn [append split_on]. rewrite IH.
  destruct (Ascii.eqb c "/"); [reflexivity|].
  pose proof (split_on_not_nil "/" b) as Hn.
  destruct (split_on "/" b) as [|h tl]; [congruence | reflexivity].
Qed.

Lemma endswith_slash_inv (a : string) :
  endswith_char "/" a = true -> exists b, a = b ++ "/".
Proof.
  induction a as [|c a IH]; [discriminate|].
  destruct a as [|d a].
  - cbn. intros H. apply Ascii.eqb_eq in H. subst. now exists "".
  - change (endswith_char "/" (String c (String d a)))
      with (endswith_char "/" (String d a)).
    intros H. destruct (IH H) as [b Hb]. exists (String c b).
    cbn [append]. now rewrite <- Hb.
Qed.

Lemma lower_not_dot (f : string) : f <> "." -> lower f <> ".".
Proof.
  intros Hf E. apply Hf.
  destruct f as [|c [|d f]]; try discriminate E.
  cbn in E. injection E as E.
  pose proof (lower_char_dot c) as Hd. rewrite E in Hd.
  cbn in Hd. symmetry in Hd. apply Ascii.eqb_eq in Hd. now subst.
Qed.

Lemma name_of_last_component (xs : list string) (f : string) :
  f <> "" -> f <> "." ->
  last (filter PurePath.significant (xs ++ [f])) "" = f.
Proof.
  intros H1 H2. rewrite filter_app. cbn [filter].
  unfold PurePath.significant at 2.
  apply String.eqb_neq in H1, H2. rewrite H1, H2. cbn [negb andb].
  apply last_last.
Qed.

(** the name of a joined path is the name that was joined *)
Lemma name_of_join (root f : string) :
  valid_name f = true -> f <> "." ->
  PurePath.name (lower (PurePath.join root f)) = lower f.
Proof.
  intros Hv Hd. destruct (valid_name_inv f Hv) as [Hs Hne].
  assert (Hl1 : lower f <> "") by (destruct f; [congruence | discriminate]).
  pose proof (lower_not_dot f Hd) as Hl2.
  assert (Hsl : no_slash (lower f) = true) by now rewrite no_slash_lower.
  rewrite join_valid by assumption.
  unfold PurePath.name, PurePath.parts, separator_after.
  destruct (String.eqb_spec root "") as [->|Hr]; cbn [orb].
  - cbn [append]. rewrite (split_no_slash _ Hsl).
    apply (name_of_last_component []%list); assumption.
  - destruct (endswith_char "/" root) eqn:Ee.
    + destruct (endswith_slash_inv root Ee) as [b ->].
      cbn [append]. rewrite append_assoc. cbn [append].
      rewrite lower_app. cbn [lower].
      change (lower_char "/") with "/"%char.
      rewrite split_app_slash, (split_no_slash _ Hsl).
      now apply name_of_last_component.
    + rewrite lower_app. cbn [append lower].
      change (lower_char "/") with "/"%char.
      rewrite split_app_slash, (split_no_slash _ Hsl).
      now apply name_of_last_component.
Qed.

Lemma name_of_valid (f : string) :
  valid_name f = true -> f <> "." -> PurePath.name f = f.
Proof.
  intros Hv Hd. destruct (valid_name_inv f Hv) as [Hs Hne].
  unfold PurePath.name, PurePath.parts. rewrite (split_no_slash _ Hs).
  now apply (name_of_last_component []%list).
Qed.

Lemma rfind_dot_lower (s : string) : rfind_dot (lower s) = rfind_dot s.
Proof.
  induction s as [|c s IH]; [reflexivity|].
  cbn [lower rfind_dot]. now rewrite IH, lower_char_dot.
Qed.

Lemma length_lower (s : string) : String.length (lower s) = String.length s.
Proof. induction s as [|c s IH]; cbn; [reflexivity | now rewrite IH]. Qed.

Lemma substring_lower (n m : nat) (s : string) :
  substring n m (lower s) = lower (substring n m s).
Proof.
  revert n m; induction s as [|c s IH]; intros [|n] [|m]; try reflexivity.
  - cbn [lower substring]. now rewrite IH.
  - cbn [lower substring]. apply IH.
  - cbn [lower substring]. apply IH.
Qed.

(** lower-casing a name and taking its suffix commute *)
Lemma suffix_lower (a b : string) :
  PurePath.name a = lower (PurePath.name b) ->
  PurePath.suffix a = lower (PurePath.suffix b).
Proof.
  intros H. unfold PurePath.suffix, PurePath.has_suffix_at. rewrite H.
  rewrite rfind_dot_lower, length_lower.
  destruct (rfind_dot (PurePath.name b)) as [i|]; [|reflexivity].
  destruct ((0 <? i)%nat && (i <? String.length (PurePath.name b) - 1)%nat);
    [apply substring_lower | reflexivity].
Qed.

Lemma save_extension_has_entry (e : string) :
  mem e save_extensions = true -> table_entry e <> None.
Proof.
  intros H. apply mem_In in H. cbn in H.
  repeat (destruct H as [<- | H]; [discriminate|]). contradiction.
Qed.

Lemma matched_not_dot (igf : list string) (f : string) :
  matched igf f = true -> f <> ".".
Proof.
  intros H ->. unfold matched in H.
  apply andb_true_iff in H as [_ H]. discriminate H.
Qed.

Lemma detect_with_entry (cf : config_file) (p : string) (t : triple) :
  table_entry (PurePath.suffix (lower p)) <> None ->
  detect_console_type cf p = Ok t ->
  exists v, In v table_triples /\ t = resolved (load_emulator_paths cf) v.
Proof.
  intros Hentry H. rewrite detect_by_entry in H. cbv zeta in H.
  destruct (table_entry (PurePath.suffix (lower p))) as [[v|sub]|] eqn:E;
    [| |congruence].
  - injection H as <-. exists v. split; [|reflexivity].
    exact (table_entry_triples _ _ E).
  - pose proof (table_entry_triples _ _ E) as Hsub. cbn in Hsub.
    destruct (scan_keys _ _ sub) as [t'|] eqn:Ek.
    + injection H as ->.
      apply scan_keys_found in Ek as (k & v & Hv & _ & ->).
      exists v. split; [exact (Hsub (k, v) Hv) | reflexivity].
    + destruct sub as [|[k v] sub]; [discriminate|].
      injection H as <-. exists v. split; [|reflexivity].
      apply (Hsub (k, v)). now left.
Qed.

(** X18. The fallback is out of reach of a scan: the extensions that the
    scanner accepts all have a table entry, and the classifier finds the
    extension of the full path equal to the lower-cased extension of the
    file name, so no record of a scan is classified ("PC", "Unknown",
    "Unknown"). *)
Theorem scanned_files_never_fall_back :
  forall ign cf directory fs recs r,
    names_ok fs = true ->
    scan_directory ign cf directory fs = Ok recs ->
    In r recs ->
    mem (PurePath.suffix (lower (save_path r))) save_extensions = true
    /\ table_entry (PurePath.suffix (lower (save_path r))) <> None
    /\ console_type r <> "PC"
    /\ hardware_type r <> "Unknown".
Proof.
  intros ign cf directory fs recs r Hok Hs Hr.
  apply scan_directory_records in Hs. subst recs.
  apply in_all_records in Hr as (root & dn & fl & f & t & Hin & Hf & Hm & ->).
  unfold visited in Hin.
  apply os_walk_visits in Hin as (ds & es & Hv & -> & _ & ->).
  destruct (visits_names _ _ _ _ Hv Hok) as [_ Hes].
  apply in_file_entries in Hf. specialize (Hes _ Hf). cbn in Hes.
  pose proof (matched_not_dot _ _ Hm) as Hd.
  assert (Hsuf : PurePath.suffix (lower (PurePath.join (path_below directory ds) f))
                 = lower (PurePath.suffix f)).
  { apply suffix_lower.
    now rewrite name_of_join, name_of_valid. }
  assert (Hmem : mem (lower (PurePath.suffix f)) save_extensions = true).
  { unfold matched in Hm. now apply andb_true_iff in Hm. }
  cbn [record_of save_path console_type hardware_type].
  rewrite Hsuf. split; [exact Hmem|].
  pose proof (save_extension_has_entry _ Hmem) as Hentry.
  split; [exact Hentry|].
  unfold triple_of.
  destruct (detect_returns cf (PurePath.join (path_below directory ds) f))
    as (tr & Hdet & _).
  rewrite Hdet.
  rewrite <- Hsuf in Hentry.
  destruct (detect_with_entry _ _ _ Hentry Hdet) as (v & Hin & ->).
  unfold resolved; cbn [fst snd].
  clear Hdet. revert v Hin. apply Forall_forall.
  unfold table_triples. cbn [flat_map console_patterns snd map app fst].
  repeat (apply Forall_cons; [split; discriminate|]). apply Forall_nil.
Qed.

Lemma scanned_files_never_fall_back_witness :
  mem (PurePath.suffix (lower "/r/Sub/TEKKEN.MCR")) save_extensions = true
  /\ table_entry (PurePath.suffix (lower "/r/Sub/TEKKEN.MCR")) <> None
  /\ "PS1" <> "PC"
  /\ "Original" <> "Unknown".
Proof.
  apply (scanned_files_never_fall_back IgnoreAbsent ConfigUnusable "/r"
           (Dir "r" [ Dir "Sub" [ File "TEKKEN.MCR" (Some "2024-05-01 10:00:00") ] ])
           [ mk_save_info "PS1" "TEKKEN" "/r/Sub/TEKKEN.MCR"
               "2024-05-01 10:00:00" "ePSXe" "Original" ]%list
           (mk_save_info "PS1" "TEKKEN" "/r/Sub/TEKKEN.MCR"
              "2024-05-01 10:00:00" "ePSXe" "Original")).
  - reflexivity.
  - reflexivity.
  - left; reflexivity.
Defined.

Lemma visits_is_dir keep n ds es : visits keep n ds es -> is_dir n = true.
Proof. now destruct 1. Qed.

(** every directory that can be reached through kept names is a step of
    the walk *)
Lemma visits_os_walk keep n ds es :
  visits keep n ds es ->
  forall top,
    In (path_below top ds, dir_names es, file_entries es) (os_walk keep top n).
Proof.
  induction 1 as [nm es | nm es c ds es' Hc Hk Hv IH]; intros top.
  - now left.
  - cbn [os_walk]. right. apply in_flat_map. exists c. split; [assumption|].
    rewrite (visits_is_dir _ _ _ _ Hv), Hk. apply IH.
Qed.

Lemma visits_mono (keep1 keep2 : string -> bool) n ds es :
  (forall d, keep2 d = true -> keep1 d = true) ->
  visits keep2 n ds es -> visits keep1 n ds es.
Proof.
  intros Hk. induction 1; [constructor|].
  apply visits_below; auto.
Qed.

Lemma all_records_in igf cf items root dn fl f t :
  In (root, dn, fl) items -> In (f, Some t) fl -> matched igf f = true ->
  In (record_of cf root f t) (all_records igf cf items).
Proof.
  intros Hin Hf Hm. unfold all_records. apply in_flat_map.
  exists (root, dn, fl). split; [assumption|]. cbn [fst snd].
  now apply records_of_in.
Qed.

(** X19. Nothing reachable is missed: when a scan succeeds, every file
    that lies in the root or in a directory reached through subdirectories
    that are not ignored, is not ignored itself, has a save extension and
    can be stat'ed has its record in the result. *)
Theorem reachable_matched_files_are_recorded :
  forall ign cf directory fs recs ds es f t,
    scan_directory ign cf directory fs = Ok recs ->
    visits (fun d => negb (mem d (fst (load_ignore_list ign)))) fs ds es ->
    In (File f (Some t)) es ->
    ~ In f (snd (load_ignore_list ign)) ->
    In (lower (PurePath.suffix f)) save_extensions ->
    In (record_of cf (path_below directory ds) f t) recs.
Proof.
  intros ign cf directory fs recs ds es f t Hs Hv Hf Hnf Hext.
  apply scan_directory_records in Hs. subst recs.
  apply all_records_in with (dn := dir_names es) (fl := file_entries es).
  - unfold visited. now apply visits_os_walk.
  - now apply in_file_entries.
  - now apply matched_iff.
Qed.

Lemma reachable_matched_files_are_recorded_witness :
  In (record_of ConfigUnusable (path_below "/r" ["a"; "b"]%list) "x.nv"
        "2024-05-01 10:00:00")
     [ mk_save_info "Switch" "x" "/r/a/b/x.nv" "2024-05-01 10:00:00"
         "Yuzu" "Original" ].
Proof.
  apply (reachable_matched_files_are_recorded
           (IgnoreDoc (Some ["tmp"]%list) None) ConfigUnusable "/r"
           (Dir "r" [ Dir "a" [ Dir "b" [ File "x.nv" (Some "2024-05-01 10:00:00") ] ] ])
           [ mk_save_info "Switch" "x" "/r/a/b/x.nv" "2024-05-01 10:00:00"
               "Yuzu" "Original" ]%list
           ["a"; "b"]%list
           [ File "x.nv" (Some "2024-05-01 10:00:00") ]
           "x.nv" "2024-05-01 10:00:00").
  - reflexivity.
  - apply (visits_below _ "r" _ (Dir "a" [ Dir "b" [ File "x.nv" (Some "2024-05-01 10:00:00") ] ]));
      [left; reflexivity | reflexivity|].
    apply (visits_below _ "a" _ (Dir "b" [ File "x.nv" (Some "2024-05-01 10:00:00") ]));
      [left; reflexivity | reflexivity|].
    apply visits_here.
  - left; reflexivity.
  - intros [].
  - cbn. tauto.
Defined.

(** X20. Ignoring more never adds a record and never makes a scan fail:
    if a scan succeeds, the scan of the same tree with an ignore list that
    contains all the entries of the first also succeeds, and each of its
    records is a record of the first. *)
Theorem ignoring_more_gives_fewer_records :
  forall ign1 ign2 cf directory fs recs1,
    incl (fst (load_ignore_list ign1)) (fst (load_ignore_list ign2)) ->
    incl (snd (load_ignore_list ign1)) (snd (load_ignore_list ign2)) ->
    scan_directory ign1 cf directory fs = Ok recs1 ->
    exists recs2,
      scan_directory ign2 cf directory fs = Ok recs2 /\ incl recs2 recs1.
Proof.
  intros ign1 ign2 cf directory fs recs1 Hd Hf Hs.
  pose proof (scan_ok_no_failure _ _ _ _ _ Hs) as Hok.
  apply scan_directory_records in Hs. subst recs1.
  assert (Hitems : forall root dn fl,
             In (root, dn, fl) (visited ign2 directory fs) ->
             In (root, dn, fl) (visited ign1 directory fs)).
  { intros root dn fl Hin. unfold visited in *.
    apply os_walk_visits in Hin as (ds & es & Hv & -> & -> & ->).
    apply visits_os_walk.
    apply (visits_mono _ _ _ _ _) with (2 := Hv).
    intros d H. cbn beta in H |- *.
    apply negb_true_iff, mem_not_In in H.
    apply negb_true_iff, mem_not_In. intros Hin'. apply H. now apply Hd. }
  assert (Hmatched : forall f, matched (snd (load_ignore_list ign2)) f = true ->
                               matched (snd (load_ignore_list ign1)) f = true).
  { intros f Hm. apply matched_iff in Hm as [Hn He]. apply matched_iff.
    split; [|assumption]. intros Hin. apply Hn. now apply Hf. }
  assert (Hok2 : stat_failure ign2 directory fs = false).
  { apply no_stat_failure. intros root dn fl f Hin Hnone.
    destruct (matched (snd (load_ignore_list ign2)) f) eqn:Em; [|reflexivity].
    exfalso. unfold stat_failure in Hok.
    assert (E : walk_fails (snd (load_ignore_list ign1))
                  (visited ign1 directory fs) = true).
    { apply walk_fails_iff. exists root, dn, fl, f.
      split; [now apply Hitems | split; [assumption | now apply Hmatched]]. }
    congruence. }
  eexists. split; [now apply scan_directory_ok|].
  intros r Hr.
  apply in_all_records in Hr as (root & dn & fl & f & t & Hin & Hft & Hm & ->).
  apply all_records_in with (dn := dn) (fl := fl); auto.
Qed.

Lemma ignoring_more_gives_fewer_records_witness :
  exists recs2,
    scan_directory (IgnoreDoc (Some ["tmp"]%list) (Some ["old.mcr"]%list))
      ConfigUnusable "/r"
      (Dir "r" [ File "old.mcr" (Some "2024-05-01 10:00:00");
                 Dir "tmp" [ File "t.mcr" None ];
                 File "new.mcr" (Some "2024-05-02 11:00:00") ]) = Ok recs2
    /\ incl recs2
         [ mk_save_info "PS1" "old" "/r/old.mcr" "2024-05-01 10:00:00"
             "ePSXe" "Original";
           mk_save_info "PS1" "new" "/r/new.mcr" "2024-05-02 11:00:00"
             "ePSXe" "Original" ].
Proof.
  apply (ignoring_more_gives_fewer_records
           (IgnoreDoc (Some ["tmp"]%list) None)
           (IgnoreDoc (Some ["tmp"]%list) (Some ["old.mcr"]%list))
           ConfigUnusable "/r"
           (Dir "r" [ File "old.mcr" (Some "2024-05-01 10:00:00");
                      Dir "tmp" [ File "t.mcr" None ];
                      File "new.mcr" (Some "2024-05-02 11:00:00") ])).
  - intros x Hx. exact Hx.
  - intros x [].
  - reflexivity.
Defined.

(** ** The worker *)

(** X21. [ScannerThread.run] always starts with "Starting scan..." and
    then ends in one of two ways: when no visited directory lists a
    matched file that cannot be stat'ed, it reports the number of records
    and emits [finished_signal] with them; otherwise it emits
    [error_signal] alone, with the error of such a file, and no
    [finished_signal]. *)
Theorem run_finishes_or_reports_the_failing_file :
  forall ign cf directory fs,
    (stat_failure ign directory fs = false ->
     run ign cf directory fs
     = [ progress_signal "Starting scan...";
         progress_signal
           ("Found "
            ++ str_of_nat
                 (List.length
                    (all_records (snd (load_ignore_list ign)) cf
                       (visited ign directory fs)))
            ++ " save files");
         finished_signal
           (all_records (snd (load_ignore_list ign)) cf
              (visited ign directory fs)) ]%list)
    /\ (stat_failure ign directory fs = true ->
        exists root dn fl f,
          In (root, dn, fl) (visited ign directory fs)
          /\ In (f, None) fl
          /\ matched (snd (load_ignore_list ign)) f = true
          /\ run ign cf directory fs
             = [ progress_signal "Starting scan...";
                 error_signal (OSError (PurePath.join root f)) ]%list).
Proof.
  intros ign cf directory fs. split; intros H.
  - unfold run. now rewrite scan_directory_ok.
  - destruct (scan_directory_raise ign cf directory fs H)
      as (root & dn & fl & f & Hin & Hf & Hm & Hr).
    exists root, dn, fl, f. repeat split; try assumption.
    unfold run. now rewrite Hr.
Qed.

Lemma run_finishes_or_reports_the_failing_file_witness :
  exists root dn fl f,
    In (root, dn, fl)
       (visited IgnoreAbsent "/r"
          (Dir "r" [ Dir "sub" [ File "gone.mcr" None ] ]))
    /\ In (f, None) fl
    /\ matched (snd (load_ignore_list IgnoreAbsent)) f = true
    /\ run IgnoreAbsent ConfigUnusable "/r"
         (Dir "r" [ Dir "sub" [ File "gone.mcr" None ] ])
       = [ progress_signal "Starting scan...";
           error_signal (OSError (PurePath.join root f)) ]%list.
Proof.
  apply (proj2 (run_finishes_or_reports_the_failing_file
                  IgnoreAbsent ConfigUnusable "/r"
                  (Dir "r" [ Dir "sub" [ File "gone.mcr" None ] ]))).
  reflexivity.
Defined.
